(** * Collaborative code editor server: the room coordination engine

    A shallow embedding of [server/server.js] (class [Room], the helpers
    [getOrCreateRoom] and [transformOperation], and the socket event
    handlers), together with the [updateCode] of the earlier server draft,
    and the properties of the specification proved about them.

    Conventions.  A JS [Map] with string keys is a [gmap string _]; a JS
    number that holds an integer (timestamps, positions, lengths) is a [Z];
    [Date.now()] is an explicit argument [now] of every function that reads
    the clock; a method [m(args)] of [Room] is a function [m this args] that
    returns the room after the call (paired with the method's result when it
    has one). *)

From stdpp Require Import gmap strings list fin_maps pretty.

(** ** JavaScript idioms used by the server *)

Module Js.

(** [s || d] for a string that may be [undefined]: the empty string and
    [undefined] are falsy. *)
Definition truthy (s : string) : bool :=
  match s with
  | EmptyString => false
  | String _ _ => true
  end.

Definition or_string (o : option string) (d : string) : string :=
  match o with
  | Some s => if truthy s then s else d
  | None => d
  end.

(** [n || d] for a number that may be [undefined] (or [NaN], which is
    falsy as well): zero is falsy. *)
Definition or_num (o : option Z) (d : Z) : Z :=
  match o with
  | Some n => if (n =? 0)%Z then d else n
  | None => d
  end.

(** [l.slice(start)]: a negative [start] counts from the end, and both
    ends are clamped to the array. *)
Definition slice_from {A} (start : Z) (l : list A) : list A :=
  let len := Z.of_nat (length l) in
  let k := if (start <? 0)%Z then Z.max (len + start) 0 else Z.min start len in
  drop (Z.to_nat k) l.

(** Values of the fields of a loosely typed object. *)
Inductive Val :=
| VNum (n : Z)
| VStr (s : string).

(** A plain object, as the cursor payload of a client. *)
Abbreviation Obj := (gmap string Val).

End Js.

(** ** Configuration *)

Record Config := {
  roomHistoryLimit : Z;
  chatMessageLimit : Z
}.

(** [parseInt(process.env.X) || d]: the argument is the parsed integer, or
    [None] when the variable is unset or does not parse ([NaN]). *)
Definition loadConfig (ROOM_HISTORY_LIMIT CHAT_MESSAGE_LIMIT : option Z) : Config :=
  {| roomHistoryLimit := Js.or_num ROOM_HISTORY_LIMIT 1000;
     chatMessageLimit := Js.or_num CHAT_MESSAGE_LIMIT 100 |}.

Definition userColors : list string :=
  ["#FF6B6B"; "#4ECDC4"; "#45B7D1"; "#96CEB4";
   "#FFEAA7"; "#DDA0DD"; "#98D8C8"; "#F7DC6F"].

(** ** Data model *)

Record File := {
  file_name : string;
  file_content : string;
  file_language : string
}.

Record User := {
  user_id : string;
  user_username : string;
  user_color : option string;   (* [userColors[i]]: [None] is [undefined] *)
  user_joinedAt : Z;
  user_cursor : Z * Z           (* [{ line, ch }] *)
}.

(** An edit descriptor.  [op_type] is [None] for an object without a [type]
    field; the other fields are only read by [transformOperation] after the
    type has been matched. *)
Record Op := {
  op_type : option string;
  op_position : Z;
  op_text : string;
  op_length : Z;
  op_timestamp : Z
}.

(** [{ ...transformedOp, userId, username }], the descriptor a history entry
    keeps; [so_op] is [None] when the client sent no descriptor. *)
Record StoredOp := {
  so_op : option Op;
  so_userId : string;
  so_username : string
}.

Record HistoryEntry := {
  h_timestamp : Z;
  h_operation : StoredOp;
  h_content : string;
  h_file : string
}.

Record ChatMessage := {
  chat_id : string;
  chat_userId : string;
  chat_username : string;
  chat_color : option string;
  chat_message : string
}.

(** [{ ...message, timestamp }] *)
Record ChatEntry := {
  chat_payload : ChatMessage;
  chat_timestamp : Z
}.

Record Room := {
  room_id : string;
  code : string;
  users : gmap string User;
  cursors : gmap string Js.Obj;
  history : list HistoryEntry;
  files : gmap string File;
  activeFile : string;
  chat : list ChatEntry;
  lastSaved : Z
}.

(** Field updates ([this.f = v]). *)
Definition with_users (u : gmap string User) (r : Room) : Room :=
  {| room_id := room_id r; code := code r; users := u; cursors := cursors r;
     history := history r; files := files r; activeFile := activeFile r;
     chat := chat r; lastSaved := lastSaved r |}.

Definition with_cursors (c : gmap string Js.Obj) (r : Room) : Room :=
  {| room_id := room_id r; code := code r; users := users r; cursors := c;
     history := history r; files := files r; activeFile := activeFile r;
     chat := chat r; lastSaved := lastSaved r |}.

Definition with_history (h : list HistoryEntry) (r : Room) : Room :=
  {| room_id := room_id r; code := code r; users := users r; cursors := cursors r;
     history := h; files := files r; activeFile := activeFile r;
     chat := chat r; lastSaved := lastSaved r |}.

Definition with_files (f : gmap string File) (r : Room) : Room :=
  {| room_id := room_id r; code := code r; users := users r; cursors := cursors r;
     history := history r; files := f; activeFile := activeFile r;
     chat := chat r; lastSaved := lastSaved r |}.

Definition with_activeFile (a : string) (r : Room) : Room :=
  {| room_id := room_id r; code := code r; users := users r; cursors := cursors r;
     history := history r; files := files r; activeFile := a;
     chat := chat r; lastSaved := lastSaved r |}.

Definition with_chat (c : list ChatEntry) (r : Room) : Room :=
  {| room_id := room_id r; code := code r; users := users r; cursors := cursors r;
     history := history r; files := files r; activeFile := activeFile r;
     chat := c; lastSaved := lastSaved r |}.

Definition with_content (content : string) (f : File) : File :=
  {| file_name := file_name f; file_content := content;
     file_language := file_language f |}.

(** ** class Room *)

Definition nl : string := String (Ascii.ascii_of_nat 10) EmptyString.
Definition dq : string := String (Ascii.ascii_of_nat 34) EmptyString.

Definition welcome : string :=
  "// Welcome to the collaborative code editor!" +:+ nl +:+
  "// Start typing to see real-time collaboration in action" +:+ nl +:+ nl +:+
  "console.log(" +:+ dq +:+ "Hello, World!" +:+ dq +:+ ");".

Definition main_js : File :=
  {| file_name := "main.js"; file_content := welcome;
     file_language := "javascript" |}.

(** [new Room(id)] *)
Definition newRoom (id : string) (now : Z) : Room :=
  {| room_id := id;
     code := EmptyString;
     users := ∅;
     cursors := ∅;
     history := [];
     files := <["main.js" := main_js]> ∅;
     activeFile := "main.js";
     chat := [];
     lastSaved := now |}.

Definition addUser (this : Room) (socketId : string) (username : option string)
    (now : Z) : Room * User :=
  let colorIndex := size (users this) `mod` length userColors in
  let user :=
    {| user_id := socketId;
       user_username :=
         Js.or_string username ("User" +:+ pretty (size (users this) + 1));
       user_color := userColors !! colorIndex;
       user_joinedAt := now;
       user_cursor := (0%Z, 0%Z) |} in
  (with_users (<[socketId := user]> (users this)) this, user).

Definition removeUser (this : Room) (socketId : string) : Room :=
  with_cursors (delete socketId (cursors this))
    (with_users (delete socketId (users this)) this).

Definition updateCursor (this : Room) (socketId : string) (cursor : Js.Obj)
    (now : Z) : Room :=
  with_cursors
    (<[socketId := <["timestamp" := Js.VNum now]>
                     (<["userId" := Js.VStr socketId]> cursor)]> (cursors this))
    this.

Definition switchFile (this : Room) (fileName : string) : Room * option File :=
  match files this !! fileName with
  | Some f => (with_activeFile fileName this, Some f)
  | None => (this, None)
  end.

(** [content = ''] and [language = 'javascript'] are default parameters: they
    apply when the argument is [undefined] ([None]). *)
Definition createFile (this : Room) (fileName : string)
    (content language : option string) : Room * option File :=
  match files this !! fileName with
  | None =>
      let file :=
        {| file_name := fileName;
           file_content := default EmptyString content;
           file_language := default "javascript" language |} in
      (with_files (<[fileName := file]> (files this)) this, Some file)
  | Some _ => (this, None)
  end.

Definition deleteFile (this : Room) (fileName : string) : Room * bool :=
  if bool_decide (fileName ≠ "main.js") && bool_decide (is_Some (files this !! fileName))
  then
    let this1 := with_files (delete fileName (files this)) this in
    let this2 :=
      if bool_decide (activeFile this1 = fileName)
      then with_activeFile "main.js" this1 else this1 in
    (this2, true)
  else (this, false).

(** [a.length > limit ? a.slice(-limit) : a], the truncation shared by the
    history and the chat log. *)
Definition truncate {A} (limit : Z) (a : list A) : list A :=
  if (limit <? Z.of_nat (length a))%Z then Js.slice_from (- limit) a else a.

Section WithConfig.

Variable config : Config.

Definition updateCode (this : Room) (content : string) (operation : StoredOp)
    (now : Z) : Room :=
  match files this !! activeFile this with
  | Some file =>
      let this1 :=
        with_files (<[activeFile this := with_content content file]> (files this))
          this in
      let entry :=
        {| h_timestamp := now; h_operation := operation;
           h_content := content; h_file := activeFile this |} in
      with_history
        (truncate (roomHistoryLimit config) (history this1 ++ [entry])) this1
  | None => this
  end.

Definition addChatMessage (this : Room) (message : ChatMessage) (now : Z) : Room :=
  with_chat
    (truncate (chatMessageLimit config)
       (chat this ++ [{| chat_payload := message; chat_timestamp := now |}]))
    this.

(** A call of a mutating method of [Room]. *)
Inductive RoomOp :=
| OpAddUser (socketId : string) (username : option string) (now : Z)
| OpRemoveUser (socketId : string)
| OpUpdateCode (content : string) (operation : StoredOp) (now : Z)
| OpUpdateCursor (socketId : string) (cursor : Js.Obj) (now : Z)
| OpAddChatMessage (message : ChatMessage) (now : Z)
| OpSwitchFile (fileName : string)
| OpCreateFile (fileName : string) (content language : option string)
| OpDeleteFile (fileName : string).

Definition applyOp (this : Room) (o : RoomOp) : Room :=
  match o with
  | OpAddUser s u now => (addUser this s u now).1
  | OpRemoveUser s => removeUser this s
  | OpUpdateCode c op now => updateCode this c op now
  | OpUpdateCursor s c now => updateCursor this s c now
  | OpAddChatMessage m now => addChatMessage this m now
  | OpSwitchFile f => (switchFile this f).1
  | OpCreateFile f c l => (createFile this f c l).1
  | OpDeleteFile f => (deleteFile this f).1
  end.

Definition applyOps (this : Room) (ops : list RoomOp) : Room :=
  fold_left applyOp ops this.

End WithConfig.

(** ** Utility functions *)

Definition with_position (p : Z) (o : Op) : Op :=
  {| op_type := op_type o; op_position := p; op_text := op_text o;
     op_length := op_length o; op_timestamp := op_timestamp o |}.

(** The body of the loop of [transformOperation]: [op] is the incoming
    descriptor, [transformedOp] the copy that the loop updates.
    [text.length] counts the characters of the inserted text. *)
Definition transformStep (op transformedOp otherOp : Op) : Op :=
  if (op_timestamp otherOp <? op_timestamp op)%Z then
    if bool_decide (op_type otherOp = Some "insert")
       && (op_position otherOp <=? op_position transformedOp)%Z
    then
      with_position
        (op_position transformedOp + Z.of_nat (String.length (op_text otherOp)))
        transformedOp
    else if bool_decide (op_type otherOp = Some "delete")
            && (op_position otherOp <? op_position transformedOp)%Z
    then
      with_position
        (op_position transformedOp
         - Z.min (op_length otherOp)
                 (op_position transformedOp - op_position otherOp))
        transformedOp
    else transformedOp
  else transformedOp.

Definition transformOperation (op : Op) (otherOps : list Op) : Op :=
  fold_left (transformStep op) otherOps op.

(** The filter of the [get-replay] handler.  The clock is read once for the
    whole pass. *)
Definition getReplay (history : list HistoryEntry)
    (fromTimestamp toTimestamp : option Z) (now : Z) : list HistoryEntry :=
  List.filter
    (λ op, (Js.or_num fromTimestamp 0 <=? h_timestamp op)%Z
           && (h_timestamp op <=? Js.or_num toTimestamp now)%Z)
    history.

(** ** The earlier draft of the server

    Its [Room] has no [code] field, its history entries carry no descriptor,
    [updateCode] names the file it writes and the history cap is the
    constant 1000.  The other methods are those of [server.js]. *)

Module Draft.

Record HistoryEntry := {
  timestamp : Z;
  content : string;
  fileName : string
}.

Record Room := {
  id : string;
  users : gmap string User;
  cursors : gmap string Js.Obj;
  history : list HistoryEntry;
  files : gmap string File;
  activeFile : string;
  chat : list ChatEntry;
  lastSaved : Z
}.

Definition newRoom (id : string) (now : Z) : Room :=
  {| id := id; users := ∅; cursors := ∅; history := [];
     files := <["main.js" := main_js]> ∅; activeFile := "main.js";
     chat := []; lastSaved := now |}.

Definition updateCode (this : Room) (fileName content : string) (now : Z) : Room :=
  match files this !! fileName with
  | Some file =>
      let entry :=
        {| timestamp := now; content := content; fileName := fileName |} in
      {| id := id this; users := users this; cursors := cursors this;
         history := truncate 1000 (history this ++ [entry]);
         files := <[fileName := with_content content file]> (files this);
         activeFile := activeFile this; chat := chat this;
         lastSaved := lastSaved this |}
  | None => this
  end.

End Draft.

(** ** The registry and the socket event handlers

    [rooms] is the process-wide registry.  Each connection owns the two
    closure variables [currentRoom] and [currentUser] of its handlers; they
    are kept per socket id.  A handler that mutates a room mutates the
    object held by the registry, which here writes the room back under its
    key.  Outbound messages do not touch the state and are left out, except
    the payload of [replay-data]. *)

Record Session := {
  currentRoom : option string;   (* [None] is [null] *)
  currentUser : option User
}.

Record Server := {
  rooms : gmap string Room;
  sessions : gmap string Session
}.

Definition initial : Server := {| rooms := ∅; sessions := ∅ |}.

Definition with_lastSaved (t : Z) (r : Room) : Room :=
  {| room_id := room_id r; code := code r; users := users r; cursors := cursors r;
     history := history r; files := files r; activeFile := activeFile r;
     chat := chat r; lastSaved := t |}.

Definition getOrCreateRoom (rooms : gmap string Room) (roomId : string) (now : Z)
    : gmap string Room * Room :=
  match rooms !! roomId with
  | Some room => (rooms, room)
  | None => let room := newRoom roomId now in (<[roomId := room]> rooms, room)
  end.

(** [if (!currentRoom) return; const room = rooms.get(currentRoom);
    if (!room) return;] *)
Definition boundRoom (s : Server) (socketId : string)
    : option (Session * string * Room) :=
  match sessions s !! socketId with
  | Some sess =>
      match currentRoom sess with
      | Some roomId =>
          if Js.truthy roomId then
            match rooms s !! roomId with
            | Some room => Some (sess, roomId, room)
            | None => None
            end
          else None
      | None => None
      end
  | None => None
  end.

(** A history entry read as a descriptor by [transformOperation]: it has a
    [timestamp] and no [type]. *)
Definition entryAsOp (h : HistoryEntry) : Op :=
  {| op_type := None; op_position := 0; op_text := EmptyString;
     op_length := 0; op_timestamp := h_timestamp h |}.

(** [message.trim()], on the ASCII white space. *)
Definition is_space (c : Ascii.ascii) : bool :=
  let n := Ascii.nat_of_ascii c in
  (n =? 32) || ((9 <=? n) && (n <=? 13)).

Fixpoint trim_start (s : string) : string :=
  match s with
  | String c s' => if is_space c then trim_start s' else s
  | EmptyString => EmptyString
  end.

Definition trim (s : string) : string :=
  String.rev (trim_start (String.rev (trim_start s))).

Inductive Event :=
| connection (socketId : string)
| join_room (socketId roomId : string) (username : option string) (now : Z)
| code_change (socketId content : string) (operation : option Op) (now : Z)
| cursor_change (socketId : string) (cursor : Js.Obj) (now : Z)
| switch_file (socketId fileName : string)
| create_file (socketId fileName : string) (language : option string)
| delete_file (socketId fileName : string)
| chat_message_ev (socketId message : string) (now : Z)
| get_replay (socketId : string) (fromTimestamp toTimestamp : option Z) (now : Z)
| disconnect (socketId : string)
| ping (socketId : string)
| post_file (id fileName : string) (content language : option string)
| auto_save (roomId : string) (now : Z) (written : bool).

Section Handlers.

Variable config : Config.

Definition setRoom (s : Server) (roomId : string) (room : Room) : Server :=
  {| rooms := <[roomId := room]> (rooms s); sessions := sessions s |}.

Definition onJoinRoom (s : Server) (socketId roomId : string)
    (username : option string) (now : Z) : Server :=
  match sessions s !! socketId with
  | Some _ =>
      let '(rooms1, room) := getOrCreateRoom (rooms s) roomId now in
      let '(room', user) := addUser room socketId username now in
      {| rooms := <[roomId := room']> rooms1;
         sessions :=
           <[socketId := {| currentRoom := Some roomId;
                            currentUser := Some user |}]> (sessions s) |}
  | None => s
  end.

(** [transformOperation(operation, recentOps)] reads [op.timestamp] in its
    first iteration: without a descriptor it throws unless the window is
    empty, and the handler stops before it touches the room. *)
Definition onCodeChange (s : Server) (socketId content : string)
    (operation : option Op) (now : Z) : Server :=
  match boundRoom s socketId with
  | Some (sess, roomId, room) =>
      let recentOps := entryAsOp <$> Js.slice_from (-10) (history room) in
      let transformedOp :=
        match operation, recentOps with
        | Some op, _ => Some (Some (transformOperation op recentOps))
        | None, [] => Some None
        | None, _ :: _ => None
        end in
      match transformedOp, currentUser sess with
      | Some top, Some user =>
          setRoom s roomId
            (updateCode config room content
               {| so_op := top; so_userId := socketId;
                  so_username := user_username user |} now)
      | _, _ => s
      end
  | None => s
  end.

Definition onCursorChange (s : Server) (socketId : string) (cursor : Js.Obj)
    (now : Z) : Server :=
  match boundRoom s socketId with
  | Some (_, roomId, room) => setRoom s roomId (updateCursor room socketId cursor now)
  | None => s
  end.

Definition onSwitchFile (s : Server) (socketId fileName : string) : Server :=
  match boundRoom s socketId with
  | Some (_, roomId, room) => setRoom s roomId (switchFile room fileName).1
  | None => s
  end.

Definition onCreateFile (s : Server) (socketId fileName : string)
    (language : option string) : Server :=
  match boundRoom s socketId with
  | Some (_, roomId, room) =>
      setRoom s roomId (createFile room fileName (Some EmptyString) language).1
  | None => s
  end.

Definition onDeleteFile (s : Server) (socketId fileName : string) : Server :=
  match boundRoom s socketId with
  | Some (_, roomId, room) => setRoom s roomId (deleteFile room fileName).1
  | None => s
  end.

Definition onChatMessage (s : Server) (socketId message : string) (now : Z)
    : Server :=
  match boundRoom s socketId with
  | Some (sess, roomId, room) =>
      match currentUser sess with
      | Some user =>
          let chatMessage :=
            {| chat_id := pretty now +:+ socketId;
               chat_userId := socketId;
               chat_username := user_username user;
               chat_color := user_color user;
               chat_message := trim message |} in
          setRoom s roomId (addChatMessage config room chatMessage now)
      | None => s
      end
  | None => s
  end.

(** The payload of [replay-data]; [None] when the handler returns early. *)
Definition onGetReplay (s : Server) (socketId : string)
    (fromTimestamp toTimestamp : option Z) (now : Z) : option (list HistoryEntry) :=
  match boundRoom s socketId with
  | Some (_, _, room) => Some (getReplay (history room) fromTimestamp toTimestamp now)
  | None => None
  end.

Definition onDisconnect (s : Server) (socketId : string) : Server :=
  match sessions s !! socketId with
  | Some sess =>
      match currentRoom sess, currentUser sess with
      | Some roomId, Some _ =>
          if Js.truthy roomId then
            match rooms s !! roomId with
            | Some room =>
                let room' := removeUser room socketId in
                if bool_decide (size (users room') = 0)
                then {| rooms := delete roomId (rooms s); sessions := sessions s |}
                else setRoom s roomId room'
            | None => s
            end
          else s
      | _, _ => s
      end
  | None => s
  end.

(** [POST /api/rooms/:id/files] *)
Definition onPostFile (s : Server) (id fileName : string)
    (content language : option string) : Server :=
  match rooms s !! id with
  | Some room => setRoom s id (createFile room fileName content language).1
  | None => s
  end.

(** One iteration of the sweep of [autoSave]; [written] tells whether the
    snapshot could be written. *)
Definition onAutoSave (s : Server) (roomId : string) (now : Z) (written : bool)
    : Server :=
  match rooms s !! roomId with
  | Some room =>
      if (5 * 60 * 1000 <? now - lastSaved room)%Z && written
      then setRoom s roomId (with_lastSaved now room)
      else s
  | None => s
  end.

Definition handle (s : Server) (e : Event) : Server :=
  match e with
  | connection socketId =>
      {| rooms := rooms s;
         sessions := <[socketId := {| currentRoom := None; currentUser := None |}]>
                       (sessions s) |}
  | join_room socketId roomId username now => onJoinRoom s socketId roomId username now
  | code_change socketId content operation now =>
      onCodeChange s socketId content operation now
  | cursor_change socketId cursor now => onCursorChange s socketId cursor now
  | switch_file socketId fileName => onSwitchFile s socketId fileName
  | create_file socketId fileName language => onCreateFile s socketId fileName language
  | delete_file socketId fileName => onDeleteFile s socketId fileName
  | chat_message_ev socketId message now => onChatMessage s socketId message now
  | get_replay _ _ _ _ => s
  | disconnect socketId => onDisconnect s socketId
  | ping _ => s
  | post_file id fileName content language => onPostFile s id fileName content language
  | auto_save roomId now written => onAutoSave s roomId now written
  end.

Definition run (events : list Event) : Server := fold_left handle events initial.

(** The handlers that change the user map of a room are [join-room]
    ([addUser]) and [disconnect] ([removeUser]); [countChange] gives the room
    id and the user count the call leaves. *)
Definition countChange (s : Server) (e : Event) : option (string * nat) :=
  match e with
  | join_room socketId roomId username now =>
      match sessions s !! socketId with
      | Some _ =>
          let room := (getOrCreateRoom (rooms s) roomId now).2 in
          Some (roomId, size (users (addUser room socketId username now).1))
      | None => None
      end
  | disconnect socketId =>
      match sessions s !! socketId with
      | Some sess =>
          match currentRoom sess, currentUser sess with
          | Some roomId, Some _ =>
              if Js.truthy roomId then
                match rooms s !! roomId with
                | Some room => Some (roomId, size (users (removeUser room socketId)))
                | None => None
                end
              else None
          | _, _ => None
          end
      | None => None
      end
  | _ => None
  end.

(** The run of the server together with, for every room id, the user count
    left by the last call that changed it. *)
Definition observe (st : Server * gmap string nat) (e : Event)
    : Server * gmap string nat :=
  (handle st.1 e,
   match countChange st.1 e with
   | Some (roomId, n) => <[roomId := n]> st.2
   | None => st.2
   end).

Definition runObserved (events : list Event) : Server * gmap string nat :=
  fold_left observe events (initial, ∅).

End Handlers.

(** ** Predicates used by the statements *)

(** Two rooms differ at most in their file map and active file. *)
Definition sameButFiles (r r' : Room) : Prop :=
  room_id r' = room_id r ∧ code r' = code r ∧ users r' = users r ∧
  cursors r' = cursors r ∧ history r' = history r ∧ chat r' = chat r ∧
  lastSaved r' = lastSaved r.

(** The number of files of the room that carry the given name. *)
Definition countNamed (name : string) (r : Room) : nat :=
  length (List.filter (λ f, bool_decide (file_name f = name))
            (map_to_list (files r)).*2).

(** The incoming position as the specification adjusts it for one prior
    operation, and over a window of prior operations. *)
Definition adjust (incomingTimestamp position : Z) (prior : Op) : Z :=
  if bool_decide (op_timestamp prior < incomingTimestamp)%Z then
    if bool_decide (op_type prior = Some "insert") then
      if bool_decide (op_position prior ≤ position)%Z
      then (position + Z.of_nat (String.length (op_text prior)))%Z
      else position
    else if bool_decide (op_type prior = Some "delete") then
      if bool_decide (op_position prior < position)%Z
      then (position - Z.min (op_length prior) (position - op_position prior))%Z
      else position
    else position
  else position.

Definition reconciledPosition (incoming : Op) (window : list Op) : Z :=
  fold_left (adjust (op_timestamp incoming)) window (op_position incoming).

(** A cursor entry is the upsert of a call [updateCursor(key, cursor)] made
    at time [now]. *)
Definition upserted (key : string) (cursor : Js.Obj) (now : Z) : Js.Obj :=
  <["timestamp" := Js.VNum now]> (<["userId" := Js.VStr key]> cursor).

(** Every entry of the cursor map names its own key and carries a time
    stamp. *)
Definition cursorsStamped (r : Room) : Prop :=
  ∀ key entry, cursors r !! key = Some entry →
    entry !! "userId" = Some (Js.VStr key)
    ∧ ∃ t, entry !! "timestamp" = Some (Js.VNum t).

(** The cursor entries of a room built by [ops] are upserts of calls of
    [updateCursor] that occur in [ops]. *)
Definition cursorsFrom (ops : list RoomOp) (r : Room) : Prop :=
  ∀ key entry, cursors r !! key = Some entry →
    ∃ cursor now, OpUpdateCursor key cursor now ∈ ops
                  ∧ entry = upserted key cursor now.

(** The last [n] elements of a list, in their order. *)
Definition keepLast {A} (n : nat) (l : list A) : list A :=
  drop (length l - n) l.

(** A call [updateCode(content, operation)] at time [now], the sequence of
    method calls of a list of such calls, and the history entry that a
    successful call pushes while [file] is the active file. *)
Definition UpdateCodeCall : Type := string * StoredOp * Z.

Definition updateCodeCalls (calls : list UpdateCodeCall) : list RoomOp :=
  (λ c, OpUpdateCode c.1.1 c.1.2 c.2) <$> calls.

Definition entryOf (file : string) (c : UpdateCodeCall) : HistoryEntry :=
  {| h_timestamp := c.2; h_operation := c.1.2; h_content := c.1.1;
     h_file := file |}.

(** The same for the draft: a call [updateCode(fileName, content)] at time
    [now]. *)
Definition DraftCall : Type := string * string * Z.

Definition draftUpdateCodes (this : Draft.Room) (calls : list DraftCall)
    : Draft.Room :=
  fold_left (λ r c, Draft.updateCode r c.1.1 c.1.2 c.2) calls this.

Definition draftEntryOf (c : DraftCall) : Draft.HistoryEntry :=
  {| Draft.timestamp := c.2; Draft.content := c.1.2; Draft.fileName := c.1.1 |}.

(** Two rooms differ at most in their file map and history. *)
Definition sameButFilesHistory (r r' : Room) : Prop :=
  room_id r' = room_id r ∧ code r' = code r ∧ users r' = users r ∧
  cursors r' = cursors r ∧ activeFile r' = activeFile r ∧ chat r' = chat r ∧
  lastSaved r' = lastSaved r.

Definition draftSameButFilesHistory (r r' : Draft.Room) : Prop :=
  Draft.id r' = Draft.id r ∧ Draft.users r' = Draft.users r ∧
  Draft.cursors r' = Draft.cursors r ∧ Draft.activeFile r' = Draft.activeFile r ∧
  Draft.chat r' = Draft.chat r ∧ Draft.lastSaved r' = Draft.lastSaved r.

(** The entries of a history whose timestamp lies between the two bounds,
    bounds included, in the order of the history. *)
Definition replayBetween (from to : Z) (history : list HistoryEntry)
    : list HistoryEntry :=
  List.filter (λ e, bool_decide (from ≤ h_timestamp e ≤ to)%Z) history.

(** The registry agrees with the user counts left by the last calls that
    changed them: a registered room has the recorded, positive count, and
    the count recorded for an id that is not registered, if any, is zero. *)
Definition registryInv (st : Server * gmap string nat) : Prop :=
  ∀ roomId,
    match rooms st.1 !! roomId with
    | Some room =>
        st.2 !! roomId = Some (size (users room)) ∧ 0 < size (users room)
    | None => st.2 !! roomId = None ∨ st.2 !! roomId = Some 0
    end.

(** ** Further parts of the server and predicates on rooms *)

(** The [code] and [chat] fields of the object that [getState] returns: the
    content of the active file, or the empty text when it does not resolve,
    and the last 50 chat entries. *)
Definition getState_code (this : Room) : string :=
  match files this !! activeFile this with
  | Some activeFile => file_content activeFile
  | None => EmptyString
  end.

Definition getState_chat (this : Room) : list ChatEntry :=
  Js.slice_from (-50) (chat this).

(** The active file is a key of the file map, and so is [main.js]. *)
Definition activeResolves (r : Room) : Prop :=
  is_Some (files r !! "main.js") ∧ is_Some (files r !! activeFile r).

(** Files are stored under their name and users under their id. *)
Definition keyedByName (r : Room) : Prop :=
  (∀ k f, files r !! k = Some f → file_name f = k)
  ∧ (∀ k u, users r !! k = Some u → user_id u = k).

(** [addUser(id)] without a name for each id of a list, in order. *)
Definition joinAll (this : Room) (socketIds : list string) (now : Z) : Room :=
  fold_left (λ r socketId, (addUser r socketId None now).1) socketIds this.

(** The content of the last call of a list of [updateCode] calls. *)
Definition lastContent (calls : list UpdateCodeCall) : option string :=
  (λ c : UpdateCodeCall, c.1.1) <$> last calls.

(** A list of chat messages with the time of their arrival, as calls of
    [addChatMessage] and as the entries these calls push. *)
Definition chatCalls (messages : list (ChatMessage * Z)) : list RoomOp :=
  (λ m, OpAddChatMessage m.1 m.2) <$> messages.

Definition chatEntryOf (m : ChatMessage * Z) : ChatEntry :=
  {| chat_payload := m.1; chat_timestamp := m.2 |}.

(** The user that [addUser] creates for a socket that gives no name while
    the room has [count] users. *)
Definition defaultUser (socketId : string) (count : nat) (now : Z) : User :=
  {| user_id := socketId;
     user_username := "User" +:+ pretty (count + 1);
     user_color := userColors !! (count `mod` 8);
     user_joinedAt := now;
     user_cursor := (0%Z, 0%Z) |}.

(** The socket of an event whose handler serves only a socket that is bound
    to a room. *)
Definition roomEvent (e : Event) : option string :=
  match e with
  | code_change s _ _ _ | cursor_change s _ _ | switch_file s _
  | create_file s _ _ | delete_file s _ | chat_message_ev s _ _
  | get_replay s _ _ _ | disconnect s | ping s => Some s
  | connection _ | join_room _ _ _ _ | post_file _ _ _ _ | auto_save _ _ _ => None
  end.

(** [GET /api/rooms]: the summary of one room,
    [Math.max(...room.history.map(h => h.timestamp), 0)] being its last
    activity. *)
Definition lastActivity (room : Room) : Z :=
  foldr Z.max 0%Z (h_timestamp <$> history room).

Record RoomSummary := {
  sum_id : string;
  sum_userCount : nat;
  sum_fileCount : nat;
  sum_lastActivity : Z
}.

Definition roomSummary (room : Room) : RoomSummary :=
  {| sum_id := room_id room;
     sum_userCount := size (users room);
     sum_fileCount := size (files room);
     sum_lastActivity := lastActivity room |}.

(** [POST /api/rooms/:id/files]: the status and the body of the response;
    the state after the request is [onPostFile]. *)
Definition postFileResponse (s : Server) (id fileName : string)
    (content language : option string) : nat * option File :=
  match rooms s !! id with
  | None => (404, None)
  | Some room =>
      match (createFile room fileName content language).2 with
      | Some file => (200, Some file)
      | None => (400, None)
      end
  end.

(** What every registered room satisfies. *)
Definition wellFormed (config : Config) (key : string) (room : Room) : Prop :=
  room_id room = key
  ∧ activeResolves room
  ∧ keyedByName room
  ∧ cursorsStamped room
  ∧ (Z.of_nat (length (history room)) ≤ roomHistoryLimit config)%Z
  ∧ (Z.of_nat (length (chat room)) ≤ chatMessageLimit config)%Z.

(** The content that the last call naming [key] of a list of draft
    [updateCode] calls wrote, if any call names it. *)
Definition lastWrite (key : string) (calls : list DraftCall) : option string :=
  (λ c : DraftCall, c.1.2)
    <$> last (List.filter (λ c : DraftCall, bool_decide (c.1.1 = key)) calls).

(** * Properties *)

(** ** File management *)

Lemma deleteFile_refused this fileName :
  fileName = "main.js" ∨ files this !! fileName = None →
  deleteFile this fileName = (this, false).
Proof.
  intros [-> | Hnone]; unfold deleteFile.
  - reflexivity.
  - rewrite Hnone. rewrite (bool_decide_eq_false_2 (is_Some None)).
    + by rewrite andb_false_r.
    + by intros [? ?].
Qed.

Lemma deleteFile_done this fileName :
  fileName ≠ "main.js" → is_Some (files this !! fileName) →
  deleteFile this fileName =
    ((if bool_decide (activeFile this = fileName)
      then with_activeFile "main.js" else λ r, r)
       (with_files (delete fileName (files this)) this), true).
Proof.
  intros Hne Hin. unfold deleteFile.
  rewrite !bool_decide_eq_true_2 by done. simpl.
  by case_bool_decide.
Qed.

Lemma deleteFile_keeps this fileName k :
  k = "main.js" ∨ k ≠ fileName →
  is_Some (files this !! k) → is_Some (files (deleteFile this fileName).1 !! k).
Proof.
  intros Hk Hin. unfold deleteFile.
  destruct (bool_decide (fileName ≠ "main.js")) eqn:Hm; simpl; [|done].
  apply bool_decide_eq_true_1 in Hm.
  assert (fileName ≠ k) by (destruct Hk; congruence).
  destruct (bool_decide (is_Some _)); simpl; [|done].
  case_bool_decide; simpl; by rewrite lookup_delete_ne.
Qed.

Lemma createFile_keeps this fileName content language k :
  is_Some (files this !! k) →
  is_Some (files (createFile this fileName content language).1 !! k).
Proof.
  intros Hin. unfold createFile.
  destruct (files this !! fileName) eqn:Hf; simpl; [done|].
  rewrite lookup_insert_ne; [done|]. intros ->. rewrite Hf in Hin. by destruct Hin.
Qed.

Lemma switchFile_files this fileName :
  files (switchFile this fileName).1 = files this.
Proof. unfold switchFile. by destruct (files this !! fileName). Qed.

Lemma updateCode_keeps config this content operation now k :
  is_Some (files this !! k) →
  is_Some (files (updateCode config this content operation now) !! k).
Proof.
  intros Hin. unfold updateCode.
  destruct (files this !! activeFile this) eqn:Hf; simpl; [|done].
  destruct (decide (activeFile this = k)) as [<- | Hne].
  - rewrite lookup_insert_eq. eauto.
  - by rewrite lookup_insert_ne.
Qed.

Lemma applyOp_keeps_main config this o :
  is_Some (files this !! "main.js") →
  is_Some (files (applyOp config this o) !! "main.js").
Proof.
  intros Hin. destruct o; simpl; try done.
  - by apply updateCode_keeps.
  - by rewrite switchFile_files.
  - by apply createFile_keeps.
  - apply deleteFile_keeps; auto.
Qed.

Lemma applyOps_keeps_main config ops : ∀ this,
  is_Some (files this !! "main.js") →
  is_Some (files (applyOps config this ops) !! "main.js").
Proof.
  induction ops as [|o ops IH]; intros this Hin; simpl; [done|].
  apply IH. by apply applyOp_keeps_main.
Qed.

(** C1.  After construction the file map of a room contains the key
    [main.js], and it still does after any sequence of calls of the methods
    of the room, in particular of [createFile] and [deleteFile]: the
    constructor seeds the file, [createFile] keeps every file that is there,
    and [deleteFile] refuses the name [main.js] and leaves the room as it
    is. *)
Theorem main_js_never_absent config :
  (∀ id now ops, is_Some (files (applyOps config (newRoom id now) ops) !! "main.js"))
  ∧ (∀ id now, files (newRoom id now) !! "main.js" = Some main_js)
  ∧ (∀ this fileName content language k f,
       files this !! k = Some f →
       files (createFile this fileName content language).1 !! k = Some f)
  ∧ (∀ this, deleteFile this "main.js" = (this, false)).
Proof.
  split; [|split; [|split]].
  - intros id now ops. apply applyOps_keeps_main. simpl.
    rewrite lookup_insert_eq. eauto.
  - intros. apply lookup_insert_eq.
  - intros this fileName content language k f Hk. unfold createFile.
    destruct (files this !! fileName) eqn:Hf; simpl; [done|].
    rewrite lookup_insert_ne; [done|]. congruence.
  - intros. apply deleteFile_refused. by left.
Qed.

Lemma main_js_never_absent_witness :
  files (createFile (newRoom "ABC123" 0) "utils.js" None None).1 !! "main.js"
  = Some main_js.
Proof.
  apply (proj1 (proj2 (proj2
    (main_js_never_absent (loadConfig None None))))).
  reflexivity.
Defined.

(** C6.  [deleteFile] returns [false] and leaves the whole room unchanged
    when the name is [main.js] or is not a key of the file map.  When the
    name is a key other than [main.js] it returns [true], removes that key
    and no other, keeps every other field, and the active file becomes
    [main.js] if it was the deleted file and is unchanged otherwise; so
    deleting the active file always leaves [main.js] active. *)
Theorem deleteFile_spec (this : Room) (fileName : string) :
  (fileName = "main.js" ∨ files this !! fileName = None →
     deleteFile this fileName = (this, false))
  ∧ (fileName ≠ "main.js" → is_Some (files this !! fileName) →
     let r' := (deleteFile this fileName).1 in
     (deleteFile this fileName).2 = true
     ∧ files r' !! fileName = None
     ∧ (∀ k, k ≠ fileName → files r' !! k = files this !! k)
     ∧ sameButFiles this r'
     ∧ (activeFile this = fileName → activeFile r' = "main.js")
     ∧ (activeFile this ≠ fileName → activeFile r' = activeFile this)).
Proof.
  split; [apply deleteFile_refused|].
  intros Hne Hin. rewrite deleteFile_done by done. simpl.
  case_bool_decide as Ha; simpl.
  - split_and!; try done.
    + apply lookup_delete_eq.
    + intros k Hk. by apply lookup_delete_ne.
  - split_and!; try done.
    + apply lookup_delete_eq.
    + intros k Hk. by apply lookup_delete_ne.
Qed.

Lemma deleteFile_spec_witness :
  let r := (switchFile (createFile (newRoom "ABC123" 0) "utils.js" None None).1
              "utils.js").1 in
  deleteFile r "main.js" = (r, false)
  ∧ (deleteFile r "utils.js").2 = true
  ∧ activeFile r = "utils.js"
  ∧ activeFile (deleteFile r "utils.js").1 = "main.js".
Proof.
  intros r.
  destruct (deleteFile_spec r "main.js") as [Hrefuse _].
  destruct (deleteFile_spec r "utils.js") as [_ Hdone].
  split; [apply Hrefuse; by left|].
  destruct Hdone as (Hret & _ & _ & _ & Hact & _).
  - discriminate.
  - vm_compute. eauto.
  - split; [exact Hret|]. split; [reflexivity|]. apply Hact. reflexivity.
Defined.

(** C8.  [createFile] with a name that is already a key of the file map
    returns the failure value [null] and leaves the room unchanged.  With a
    fresh name it returns the new file, whose content and language are the
    arguments (the empty text and [javascript] when they are not given), and
    inserts it: the map gains exactly that key and the rest of the room is
    unchanged.  A second identical call always fails and changes nothing;
    after [createFile("utils.js", "", "javascript")] twice on a new room
    there is exactly one file named [utils.js]. *)
Theorem createFile_spec (this : Room) (fileName : string)
    (content language : option string) :
  let result := createFile this fileName content language in
  (is_Some (files this !! fileName) → result = (this, None))
  ∧ (files this !! fileName = None →
     let file := {| file_name := fileName;
                    file_content := default EmptyString content;
                    file_language := default "javascript" language |} in
     result.2 = Some file
     ∧ files result.1 !! fileName = Some file
     ∧ (∀ k, k ≠ fileName → files result.1 !! k = files this !! k)
     ∧ size (files result.1) = S (size (files this))
     ∧ activeFile result.1 = activeFile this
     ∧ sameButFiles this result.1)
  ∧ createFile result.1 fileName content language = (result.1, None)
  ∧ (∀ id now,
       let first := createFile (newRoom id now) "utils.js"
                      (Some EmptyString) (Some "javascript") in
       let second := createFile first.1 "utils.js"
                       (Some EmptyString) (Some "javascript") in
       is_Some first.2 ∧ second.2 = None ∧ second.1 = first.1
       ∧ countNamed "utils.js" second.1 = 1).
Proof.
  simpl. split_and!.
  - intros [f Hf]. unfold createFile. by rewrite Hf.
  - intros Hnone. unfold createFile. rewrite Hnone. simpl. split_and!; try done.
    + apply lookup_insert_eq.
    + intros k Hk. by apply lookup_insert_ne.
    + by apply map_size_insert_None.
  - destruct (files this !! fileName) eqn:Hf; unfold createFile; rewrite Hf; simpl.
    + by rewrite Hf.
    + by rewrite lookup_insert_eq.
  - intros id now. split_and!; try reflexivity. vm_compute. eauto.
Qed.

Lemma createFile_spec_witness :
  let r := newRoom "ABC123" 0 in
  createFile r "main.js" None None = (r, None)
  ∧ (createFile r "utils.js" None None).2
    = Some {| file_name := "utils.js"; file_content := EmptyString;
              file_language := "javascript" |}.
Proof.
  intros r.
  destruct (createFile_spec r "main.js" None None) as (Hdup & _).
  destruct (createFile_spec r "utils.js" None None) as (_ & Hnew & _).
  split.
  - apply Hdup. vm_compute. eauto.
  - apply Hnew. reflexivity.
Defined.

(** ** Users *)

Lemma colorIndex_defined (n : nat) : is_Some (userColors !! (n `mod` length userColors)).
Proof.
  apply lookup_lt_is_Some. apply Nat.mod_upper_bound. discriminate.
Qed.

(** C9.  The user that [addUser] creates has the colour
    [userColors[count % 8]], where [count] is the number of users of the room
    before the insertion and the palette has 8 entries, so the colour is
    always defined; its name is the requested name when that is a non-empty
    string and [User<count + 1>] otherwise; the user is stored under the
    socket id.  In an empty room, Alice and then Bob get the first and the
    second colour of the palette. *)
Theorem addUser_spec (this : Room) (socketId : string) (username : option string)
    (now : Z) :
  let count := size (users this) in
  let result := addUser this socketId username now in
  length userColors = 8
  ∧ user_color result.2 = userColors !! (count `mod` 8)
  ∧ is_Some (user_color result.2)
  ∧ (∀ name, username = Some name → name ≠ EmptyString →
       user_username result.2 = name)
  ∧ (username = None ∨ username = Some EmptyString →
       user_username result.2 = "User" +:+ pretty (count + 1))
  ∧ users result.1 !! socketId = Some result.2
  ∧ (∀ id t0 s1 t1 s2 t2,
       let alice := addUser (newRoom id t0) s1 (Some "Alice") t1 in
       let bob := addUser alice.1 s2 (Some "Bob") t2 in
       user_color alice.2 = userColors !! 0
       ∧ user_color bob.2 = userColors !! 1
       ∧ user_color alice.2 = Some "#FF6B6B"
       ∧ user_color bob.2 = Some "#4ECDC4").
Proof.
  simpl. split_and!; try done.
  - apply (colorIndex_defined (size (users this))).
  - intros name -> Hne. simpl. destruct name; [done|reflexivity].
  - intros [-> | ->]; reflexivity.
  - apply lookup_insert_eq.
  - intros id t0 s1 t1 s2 t2. rewrite map_size_empty.
    rewrite insert_empty, map_size_singleton. done.
Qed.

Lemma addUser_spec_witness :
  user_username (addUser (newRoom "ABC123" 0) "s1" (Some "Alice") 1).2 = "Alice"
  ∧ user_username (addUser (newRoom "ABC123" 0) "s1" None 1).2 = "User1".
Proof.
  destruct (addUser_spec (newRoom "ABC123" 0) "s1" (Some "Alice") 1)
    as (_ & _ & _ & Hname & _).
  destruct (addUser_spec (newRoom "ABC123" 0) "s1" None 1)
    as (_ & _ & _ & _ & Hdefault & _).
  split.
  - apply Hname; [reflexivity | discriminate].
  - rewrite Hdefault; [reflexivity | by left].
Defined.

(** ** Presence *)

Lemma upserted_fields key cursor now :
  upserted key cursor now !! "userId" = Some (Js.VStr key)
  ∧ upserted key cursor now !! "timestamp" = Some (Js.VNum now)
  ∧ ∀ field, field ≠ "userId" → field ≠ "timestamp" →
      upserted key cursor now !! field = cursor !! field.
Proof.
  unfold upserted. split_and!.
  - rewrite lookup_insert_ne by done. apply lookup_insert_eq.
  - apply lookup_insert_eq.
  - intros field H1 H2. by rewrite !lookup_insert_ne.
Qed.

Lemma applyOp_cursors config this o :
  cursors (applyOp config this o) =
    match o with
    | OpUpdateCursor s c now => <[s := upserted s c now]> (cursors this)
    | OpRemoveUser s => delete s (cursors this)
    | _ => cursors this
    end.
Proof.
  destruct o; simpl; try done.
  - unfold updateCode. by destruct (files this !! activeFile this).
  - unfold switchFile. by destruct (files this !! fileName).
  - unfold createFile. by destruct (files this !! fileName).
  - unfold deleteFile. destruct (_ && _); [|done]. simpl. by case_bool_decide.
Qed.

Lemma applyOp_cursorsStamped config this o :
  cursorsStamped this → cursorsStamped (applyOp config this o).
Proof.
  intros Hinv key entry. rewrite applyOp_cursors. destruct o; try apply Hinv.
  - intros [_ Hk]%lookup_delete_Some. by apply Hinv.
  - intros [[<- <-] | [_ Hk]]%lookup_insert_Some; [|by apply Hinv].
    destruct (upserted_fields socketId cursor now) as (Hu & Ht & _). eauto.
Qed.

Lemma applyOps_cursorsFrom config ops : ∀ done this,
  cursorsFrom done this →
  cursorsFrom (done ++ ops) (applyOps config this ops).
Proof.
  induction ops as [|o ops IH]; intros done this Hinv; simpl.
  - by rewrite app_nil_r.
  - replace (done ++ o :: ops) with ((done ++ [o]) ++ ops)
      by (by rewrite <- app_assoc).
    apply IH. intros key entry. rewrite applyOp_cursors.
    assert (Hold : ∀ k e, cursors this !! k = Some e →
              ∃ cursor now, OpUpdateCursor k cursor now ∈ done ++ [o]
                            ∧ e = upserted k cursor now).
    { intros k e Hk. destruct (Hinv k e Hk) as (c & t & Hin & ->).
      exists c, t. split; [|done]. apply elem_of_app. by left. }
    destruct o; try apply Hold.
    + intros [_ Hk]%lookup_delete_Some. by apply Hold.
    + intros [[<- <-] | [_ Hk]]%lookup_insert_Some; [|by apply Hold].
      exists cursor, now. split; [|done]. apply elem_of_app. right.
      apply list_elem_of_singleton. done.
Qed.

(** C10.  In every room built from [new Room] by calls of its methods, the
    entry of the cursor map under a key is what a call of [updateCursor]
    for that key stored: its [userId] is the key and its [timestamp] is the
    clock value of that call.  Every method preserves the property that all
    entries name their key and carry a time stamp.  [updateCursor] replaces
    whatever was stored under the key by the payload with [userId] and
    [timestamp] overwritten, and [removeUser] deletes the cursor entry
    together with the user. *)
Theorem cursors_name_their_key config :
  (∀ id t0 ops key entry,
     cursors (applyOps config (newRoom id t0) ops) !! key = Some entry →
     entry !! "userId" = Some (Js.VStr key)
     ∧ ∃ cursor now, OpUpdateCursor key cursor now ∈ ops
                     ∧ entry !! "timestamp" = Some (Js.VNum now)
                     ∧ entry = upserted key cursor now)
  ∧ (∀ this o, cursorsStamped this → cursorsStamped (applyOp config this o))
  ∧ (∀ this socketId cursor now,
       let stored := upserted socketId cursor now in
       cursors (updateCursor this socketId cursor now) !! socketId = Some stored
       ∧ stored !! "userId" = Some (Js.VStr socketId)
       ∧ stored !! "timestamp" = Some (Js.VNum now)
       ∧ (∀ field, field ≠ "userId" → field ≠ "timestamp" →
            stored !! field = cursor !! field)
       ∧ (∀ key, key ≠ socketId →
            cursors (updateCursor this socketId cursor now) !! key
            = cursors this !! key))
  ∧ (∀ this socketId,
       users (removeUser this socketId) !! socketId = None
       ∧ cursors (removeUser this socketId) !! socketId = None).
Proof.
  split_and!.
  - intros id t0 ops key entry Hk.
    destruct (applyOps_cursorsFrom config ops [] (newRoom id t0)) with key entry
      as (cursor & now & Hin & ->); [|done|].
    + intros k e Hke. simpl in Hke. by rewrite lookup_empty in Hke.
    + destruct (upserted_fields key cursor now) as (Hu & Ht & _). eauto 10.
  - apply applyOp_cursorsStamped.
  - intros this socketId cursor now stored.
    destruct (upserted_fields socketId cursor now) as (Hu & Ht & Hrest).
    split_and!; try done.
    + apply lookup_insert_eq.
    + intros key Hne. simpl. by rewrite lookup_insert_ne.
  - intros this socketId. simpl. split; apply lookup_delete_eq.
Qed.

Lemma cursors_name_their_key_witness :
  let payload : Js.Obj :=
    <["userId" := Js.VStr "mallory"]> (<["line" := Js.VNum 3]> ∅) in
  upserted "s1" payload 2 !! "userId" = Some (Js.VStr "s1").
Proof.
  intros payload.
  apply (proj1 (cursors_name_their_key (loadConfig None None)) "ABC123" 0%Z
           [OpAddUser "s1" (Some "Alice") 1; OpUpdateCursor "s1" payload 2] "s1").
  vm_compute. reflexivity.
Defined.

(** ** Reconciliation of edit descriptors *)

Lemma transformStep_position op cur prior :
  op_position (transformStep op cur prior)
  = adjust (op_timestamp op) (op_position cur) prior.
Proof.
  unfold transformStep, adjust.
  destruct (Z.ltb_spec (op_timestamp prior) (op_timestamp op));
    destruct (Z.leb_spec (op_position prior) (op_position cur));
    destruct (Z.ltb_spec (op_position prior) (op_position cur));
    repeat case_bool_decide; simpl; try done; try lia; congruence.
Qed.

Lemma transformStep_shape op cur prior :
  transformStep op cur prior
  = with_position (op_position (transformStep op cur prior)) cur.
Proof.
  unfold transformStep. destruct cur.
  repeat (match goal with |- context [if ?b then _ else _] => destruct b end;
          simpl; try reflexivity).
Qed.

Lemma transformOperation_snoc op otherOps otherOp :
  transformOperation op (otherOps ++ [otherOp])
  = transformStep op (transformOperation op otherOps) otherOp.
Proof. unfold transformOperation. by rewrite fold_left_app. Qed.

Lemma transformOperation_position op otherOps :
  op_position (transformOperation op otherOps) = reconciledPosition op otherOps.
Proof.
  induction otherOps as [|prior otherOps IH] using rev_ind; [done|].
  rewrite transformOperation_snoc, transformStep_position, IH.
  unfold reconciledPosition. by rewrite fold_left_app.
Qed.

(** C2.  [transformOperation] returns the incoming descriptor with only its
    position changed, and the position is the incoming one adjusted by the
    prior operations of the window in turn.  A prior operation counts when
    its timestamp is strictly less than the incoming one.  A prior insert at
    a position less than or equal to the current position adds the length of
    its text; a prior delete at a position strictly less than the current
    position subtracts [min(length, current - position)], which leaves the
    result at or above the prior's position; any other prior operation
    leaves the position as it is.  An insert at position 10 reconciled against
    an earlier insert of [abc] at position 5 ends at position 13. *)
Theorem transformOperation_spec (op : Op) :
  transformOperation op [] = op
  ∧ (∀ otherOps otherOp,
       transformOperation op (otherOps ++ [otherOp])
       = transformStep op (transformOperation op otherOps) otherOp)
  ∧ (∀ cur prior,
       let p := op_position cur in
       let next := transformStep op cur prior in
       next = with_position (op_position next) cur
       ∧ ((op_timestamp prior < op_timestamp op)%Z →
          op_type prior = Some "insert" → (op_position prior ≤ p)%Z →
          op_position next = (p + Z.of_nat (String.length (op_text prior)))%Z)
       ∧ ((op_timestamp prior < op_timestamp op)%Z →
          op_type prior = Some "delete" → (op_position prior < p)%Z →
          op_position next
            = (p - Z.min (op_length prior) (p - op_position prior))%Z
          ∧ (op_position prior ≤ op_position next)%Z)
       ∧ ((op_timestamp op ≤ op_timestamp prior)%Z
          ∨ (op_type prior ≠ Some "insert" ∧ op_type prior ≠ Some "delete")
          ∨ (op_type prior = Some "insert" ∧ (p < op_position prior)%Z)
          ∨ (op_type prior = Some "delete" ∧ (p ≤ op_position prior)%Z) →
          next = cur))
  ∧ (∀ otherOps,
       op_position (transformOperation op otherOps) = reconciledPosition op otherOps
       ∧ transformOperation op otherOps
         = with_position (reconciledPosition op otherOps) op)
  ∧ (∀ prior,
       op_position op = 10%Z → op_type prior = Some "insert" →
       op_position prior = 5%Z → op_text prior = "abc" →
       (op_timestamp prior < op_timestamp op)%Z →
       op_position (transformOperation op [prior]) = 13%Z).
Proof.
  split_and!.
  - reflexivity.
  - apply transformOperation_snoc.
  - intros cur prior p next. subst p next. split_and!.
    + apply transformStep_shape.
    + intros Hts Hty Hpos. rewrite transformStep_position. unfold adjust.
      by rewrite !bool_decide_eq_true_2 by done.
    + intros Hts Hty Hpos. rewrite transformStep_position. unfold adjust.
      rewrite (bool_decide_eq_true_2 _ Hts).
      rewrite (bool_decide_eq_false_2 (op_type prior = Some "insert"))
        by (rewrite Hty; discriminate).
      rewrite !bool_decide_eq_true_2 by done. lia.
    + intros Hcase. rewrite transformStep_shape, transformStep_position.
      assert (adjust (op_timestamp op) (op_position cur) prior = op_position cur)
        as ->; [|by destruct cur].
      unfold adjust. repeat case_bool_decide; try done; try lia.
      * destruct Hcase as [? | [[? ?] | [[? ?] | [? ?]]]]; try done; try lia.
        congruence.
      * destruct Hcase as [? | [[? ?] | [[? ?] | [? ?]]]]; try done; lia.
  - intros otherOps. split; [apply transformOperation_position|].
    rewrite <- transformOperation_position.
    induction otherOps as [|prior otherOps IH] using rev_ind; [by destruct op|].
    rewrite transformOperation_snoc, transformStep_shape. rewrite IH at 2.
    reflexivity.
  - intros prior Hp Hty Hpp Htext Hts.
    rewrite transformOperation_position. unfold reconciledPosition. simpl.
    unfold adjust. rewrite Hp, Hpp, Htext.
    rewrite !bool_decide_eq_true_2 by (done || lia). reflexivity.
Qed.

Lemma transformOperation_spec_witness :
  let incoming := {| op_type := Some "insert"; op_position := 10;
                     op_text := "x"; op_length := 0; op_timestamp := 2000 |} in
  let inserted := {| op_type := Some "insert"; op_position := 5;
                     op_text := "abc"; op_length := 0; op_timestamp := 1000 |} in
  let deleted := {| op_type := Some "delete"; op_position := 8;
                    op_text := EmptyString; op_length := 6;
                    op_timestamp := 1500 |} in
  let later := {| op_type := Some "insert"; op_position := 0;
                  op_text := "abc"; op_length := 0; op_timestamp := 2500 |} in
  op_position (transformOperation incoming [inserted]) = 13%Z
  ∧ op_position (transformStep incoming incoming inserted) = (10 + 3)%Z
  ∧ op_position (transformStep incoming incoming deleted) = (10 - Z.min 6 (10 - 8))%Z
  ∧ transformStep incoming incoming later = incoming.
Proof.
  intros incoming inserted deleted later.
  destruct (transformOperation_spec incoming) as (_ & _ & Hstep & _ & Hexample).
  split; [apply (Hexample inserted); reflexivity|].
  destruct (Hstep incoming inserted) as (_ & Hins & _).
  destruct (Hstep incoming deleted) as (_ & _ & Hdel & _).
  destruct (Hstep incoming later) as (_ & _ & _ & Hother).
  split; [apply Hins; [reflexivity | reflexivity | discriminate]|].
  split; [apply Hdel; reflexivity|].
  apply Hother. left. discriminate.
Defined.

(** ** The bounded history *)

Section KeepLast.

Context {A : Type}.
Implicit Types l k : list A.

Lemma keepLast_length n l : length (keepLast n l) = min n (length l).
Proof. unfold keepLast. rewrite length_drop. lia. Qed.

Lemma keepLast_all n l : length l ≤ n → keepLast n l = l.
Proof. intros H. unfold keepLast. by replace (length l - n) with 0 by lia. Qed.

Lemma keepLast_app_keepLast n l k :
  keepLast n (keepLast n l ++ k) = keepLast n (l ++ k).
Proof.
  unfold keepLast. rewrite !length_app, length_drop, !drop_app, length_drop.
  rewrite drop_drop. f_equal; f_equal; lia.
Qed.

Lemma truncate_keepLast (limit : Z) l :
  (0 < limit)%Z → truncate limit l = keepLast (Z.to_nat limit) l.
Proof.
  intros Hpos. unfold truncate, Js.slice_from, keepLast.
  destruct (Z.ltb_spec limit (Z.of_nat (length l))) as [Hlt | Hge].
  - rewrite (proj2 (Z.ltb_lt (- limit) 0)) by lia. f_equal. lia.
  - by replace (length l - Z.to_nat limit) with 0 by lia.
Qed.

Lemma truncate_length (limit : Z) l :
  (0 < limit)%Z → (Z.of_nat (length (truncate limit l)) ≤ limit)%Z.
Proof. intros H. rewrite truncate_keepLast, keepLast_length by done. lia. Qed.

Lemma keepLast_snoc n l x : 0 < n → last (keepLast n (l ++ [x])) = Some x.
Proof.
  intros Hn. unfold keepLast. rewrite length_app, drop_app. simpl.
  replace (length l + 1 - n - length l) with 0 by lia. simpl. apply last_snoc.
Qed.

End KeepLast.

Lemma updateCode_hit config this content operation now file :
  files this !! activeFile this = Some file →
  updateCode config this content operation now
  = with_history
      (truncate (roomHistoryLimit config)
         (history this ++ [entryOf (activeFile this) (content, operation, now)]))
      (with_files (<[activeFile this := with_content content file]> (files this))
         this).
Proof. intros Hf. unfold updateCode. by rewrite Hf. Qed.

Lemma applyOp_history config this o :
  history (applyOp config this o) =
    match o with
    | OpUpdateCode content operation now =>
        history (updateCode config this content operation now)
    | _ => history this
    end.
Proof.
  destruct o; simpl; try done.
  - unfold switchFile. by destruct (files this !! fileName).
  - unfold createFile. by destruct (files this !! fileName).
  - unfold deleteFile. destruct (_ && _); [|done]. simpl. by case_bool_decide.
Qed.

Lemma applyOp_history_bound config this o :
  (0 < roomHistoryLimit config)%Z →
  (Z.of_nat (length (history this)) ≤ roomHistoryLimit config)%Z →
  (Z.of_nat (length (history (applyOp config this o))) ≤ roomHistoryLimit config)%Z.
Proof.
  intros Hcap Hlen. rewrite applyOp_history. destruct o; try done.
  unfold updateCode. destruct (files this !! activeFile this); [|done].
  simpl. by apply truncate_length.
Qed.

Lemma applyOps_history_bound config ops : ∀ this,
  (0 < roomHistoryLimit config)%Z →
  (Z.of_nat (length (history this)) ≤ roomHistoryLimit config)%Z →
  (Z.of_nat (length (history (applyOps config this ops))) ≤ roomHistoryLimit config)%Z.
Proof.
  induction ops as [|o ops IH]; intros this Hcap Hlen; simpl; [done|].
  apply IH; [done|]. by apply applyOp_history_bound.
Qed.

Lemma updateCodeCalls_history config calls : ∀ this,
  (0 < roomHistoryLimit config)%Z →
  is_Some (files this !! activeFile this) →
  (Z.of_nat (length (history this)) ≤ roomHistoryLimit config)%Z →
  history (applyOps config this (updateCodeCalls calls))
  = keepLast (Z.to_nat (roomHistoryLimit config))
      (history this ++ (entryOf (activeFile this) <$> calls)).
Proof.
  induction calls as [|[[content operation] now] calls IH];
    intros this Hcap [file Hfile] Hlen; simpl.
  - rewrite app_nil_r, keepLast_all; [done|lia].
  - rewrite (updateCode_hit _ _ _ _ _ file Hfile).
    rewrite IH; simpl; try done.
    + rewrite truncate_keepLast by done.
      rewrite keepLast_app_keepLast. by rewrite <- app_assoc.
    + rewrite lookup_insert_eq. eauto.
    + by apply truncate_length.
Qed.

Lemma draft_updateCode_hit this fileName content now file :
  Draft.files this !! fileName = Some file →
  Draft.history (Draft.updateCode this fileName content now)
  = truncate 1000 (Draft.history this ++ [draftEntryOf (fileName, content, now)])
  ∧ Draft.files (Draft.updateCode this fileName content now)
    = <[fileName := with_content content file]> (Draft.files this)
  ∧ draftSameButFilesHistory this (Draft.updateCode this fileName content now).
Proof. intros Hf. unfold Draft.updateCode. rewrite Hf. by split_and!. Qed.

Lemma draftUpdateCodes_history calls : ∀ this,
  Forall (λ c : DraftCall, is_Some (Draft.files this !! c.1.1)) calls →
  length (Draft.history this) ≤ 1000 →
  Draft.history (draftUpdateCodes this calls)
  = keepLast 1000 (Draft.history this ++ (draftEntryOf <$> calls)).
Proof.
  induction calls as [|[[fileName content] now] calls IH];
    intros this Hall Hlen; simpl.
  - rewrite app_nil_r, keepLast_all; [done|lia].
  - apply Forall_cons in Hall as [[file Hfile] Hall]. simpl in Hfile.
    destruct (draft_updateCode_hit this fileName content now file Hfile)
      as (Hh & Hf & _).
    unfold draftUpdateCodes in *. rewrite IH.
    + rewrite Hh, (truncate_keepLast 1000) by done.
      change (Z.to_nat 1000) with 1000.
      rewrite keepLast_app_keepLast. by rewrite <- app_assoc.
    + rewrite Hf. eapply Forall_impl; [exact Hall|].
      intros c [f Hc]. simpl.
      destruct (decide (fileName = c.1.1)) as [-> | Hne].
      * rewrite lookup_insert_eq. eauto.
      * rewrite lookup_insert_ne by done. eauto.
    + rewrite Hh. pose proof (truncate_length 1000
        (Draft.history this ++ [draftEntryOf (fileName, content, now)])). lia.
Qed.

Lemma loadConfig_positive limit chatLimit :
  (∀ n, limit = Some n → (0 ≤ n)%Z) →
  (0 < roomHistoryLimit (loadConfig limit chatLimit))%Z.
Proof.
  intros Hnonneg. simpl. destruct limit as [n|]; simpl; [|done].
  specialize (Hnonneg n eq_refl). destruct (Z.eqb_spec n 0); lia.
Qed.

(** C3, for a positive cap.  With a positive history cap, the history of a
    room never holds
    more than cap entries: this is so in every room built from [new Room] by
    calls of its methods, and every method preserves it.  After a sequence
    of [updateCode] calls on a room whose active file exists, the history is
    the last cap entries of the old history followed by the entries of the
    calls, in the order of the calls; 1005 calls on a new room with a cap of
    1000 leave the entries of the last 1000 calls, without the first 5.  The
    draft, whose cap is the constant 1000, does the same for calls that name
    existing files.  The configured cap is positive whenever the environment
    leaves the limit unset or unparsable (the default 1000) or sets it to a
    number that is not negative (0 falls back to 1000 as well). *)
Theorem history_keeps_last_cap config
    (Hcap : (0 < roomHistoryLimit config)%Z) :
  let cap := roomHistoryLimit config in
  (∀ id t0 ops,
     (Z.of_nat (length (history (applyOps config (newRoom id t0) ops))) ≤ cap)%Z)
  ∧ (∀ this o,
       (Z.of_nat (length (history this)) ≤ cap)%Z →
       (Z.of_nat (length (history (applyOp config this o))) ≤ cap)%Z)
  ∧ (∀ this calls,
       is_Some (files this !! activeFile this) →
       (Z.of_nat (length (history this)) ≤ cap)%Z →
       history (applyOps config this (updateCodeCalls calls))
       = keepLast (Z.to_nat cap)
           (history this ++ (entryOf (activeFile this) <$> calls)))
  ∧ (∀ id t0 calls,
       cap = 1000%Z → length calls = 1005 →
       let h := history (applyOps config (newRoom id t0) (updateCodeCalls calls)) in
       h = drop 5 (entryOf "main.js" <$> calls) ∧ length h = 1000)
  ∧ (∀ this calls,
       Forall (λ c : DraftCall, is_Some (Draft.files this !! c.1.1)) calls →
       length (Draft.history this) ≤ 1000 →
       Draft.history (draftUpdateCodes this calls)
       = keepLast 1000 (Draft.history this ++ (draftEntryOf <$> calls))
       ∧ length (Draft.history (draftUpdateCodes this calls)) ≤ 1000)
  ∧ (∀ limit chatLimit,
       (∀ n, limit = Some n → (0 ≤ n)%Z) →
       (0 < roomHistoryLimit (loadConfig limit chatLimit))%Z).
Proof.
  intros cap. subst cap. split_and!; [| | | | |apply loadConfig_positive].
  - intros id t0 ops. apply applyOps_history_bound; [done|]. simpl. lia.
  - intros this o. by apply applyOp_history_bound.
  - intros this calls. by apply updateCodeCalls_history.
  - intros id t0 calls Hk Hlen h. subst h.
    rewrite updateCodeCalls_history; [|done| |simpl; lia].
    + simpl. rewrite Hk. change (Z.to_nat 1000) with 1000. unfold keepLast.
      rewrite length_fmap, Hlen. change (1005 - 1000) with 5.
      split; [done|]. rewrite length_drop, length_fmap, Hlen. done.
    + exists main_js. reflexivity.
  - intros this calls Hall Hlen.
    rewrite draftUpdateCodes_history by done. split; [done|].
    rewrite keepLast_length. lia.
Qed.

Lemma history_keeps_last_cap_witness :
  let call : UpdateCodeCall :=
    ("let x = 1;", {| so_op := None; so_userId := "s1"; so_username := "Alice" |},
     7%Z) in
  length (history (applyOps (loadConfig None None) (newRoom "ABC123" 0)
                     (updateCodeCalls (replicate 1005 call)))) = 1000.
Proof.
  intros call.
  apply (proj1 (proj2 (proj2 (proj2
           (history_keeps_last_cap (loadConfig None None) eq_refl))))
         "ABC123" 0%Z (replicate 1005 call));
    reflexivity.
Defined.

(** C3 as stated fails for a negative cap, which the configuration keeps:
    with [ROOM_HISTORY_LIMIT = -2] every length exceeds the cap, so
    [updateCode] always cuts the history with [slice(2)], and after the
    first call on a new room the history is empty, the pushed entry is
    gone, and its length 0 is greater than the cap. *)
Lemma history_negative_cap :
  ¬ (∀ config id t0 ops,
       (Z.of_nat (length (history (applyOps config (newRoom id t0) ops)))
        ≤ roomHistoryLimit config)%Z).
Proof.
  intros Hclaim.
  pose (op := {| so_op := None; so_userId := "s1"; so_username := "Alice" |}).
  specialize (Hclaim (loadConfig (Some (-2)%Z) None) "ABC123" 0%Z
                [OpUpdateCode "a" op 1]).
  assert (Hgone : history (applyOps (loadConfig (Some (-2)%Z) None)
                             (newRoom "ABC123" 0) [OpUpdateCode "a" op 1]) = [])
    by reflexivity.
  rewrite Hgone in Hclaim. simpl in Hclaim. lia.
Qed.

(** C7.  [updateCode] on a room whose target file is not a key of the file
    map returns the room as it is: no content changes, nothing is pushed on
    the history, and the call fails in no way.  When the file exists, its
    content is replaced, no other file changes, and one entry (time,
    descriptor, content, file name) is pushed at the end of the history,
    which is then cut to the cap: below the cap the history is the old one
    followed by the entry, and with a positive cap the entry is always the
    last one kept.  The other fields are unchanged.  The target is the
    active file in [server.js] and the named file in the draft. *)
Theorem updateCode_spec config (this : Room) (content : string)
    (operation : StoredOp) (now : Z) (draft : Draft.Room) (fileName : string) :
  let cap := roomHistoryLimit config in
  let r' := updateCode config this content operation now in
  let entry := entryOf (activeFile this) (content, operation, now) in
  let d' := Draft.updateCode draft fileName content now in
  let dentry := draftEntryOf (fileName, content, now) in
  (files this !! activeFile this = None → r' = this)
  ∧ (∀ file, files this !! activeFile this = Some file →
       files r' !! activeFile this = Some (with_content content file)
       ∧ (∀ k, k ≠ activeFile this → files r' !! k = files this !! k)
       ∧ history r' = truncate cap (history this ++ [entry])
       ∧ ((Z.of_nat (length (history this)) < cap)%Z →
          history r' = history this ++ [entry])
       ∧ ((0 < cap)%Z →
          last (history r') = Some entry
          ∧ history r' = keepLast (Z.to_nat cap) (history this ++ [entry]))
       ∧ sameButFilesHistory this r')
  ∧ (Draft.files draft !! fileName = None → d' = draft)
  ∧ (∀ file, Draft.files draft !! fileName = Some file →
       Draft.files d' !! fileName = Some (with_content content file)
       ∧ (∀ k, k ≠ fileName → Draft.files d' !! k = Draft.files draft !! k)
       ∧ (length (Draft.history draft) < 1000 →
          Draft.history d' = Draft.history draft ++ [dentry])
       ∧ last (Draft.history d') = Some dentry
       ∧ Draft.history d' = keepLast 1000 (Draft.history draft ++ [dentry])
       ∧ draftSameButFilesHistory draft d').
Proof.
  simpl. split_and!.
  - intros Hnone. unfold updateCode. by rewrite Hnone.
  - intros file Hfile. rewrite (updateCode_hit _ _ _ _ _ file Hfile). simpl.
    split_and!; try done.
    + apply lookup_insert_eq.
    + intros k Hk. by rewrite lookup_insert_ne.
    + intros Hlt. unfold truncate. rewrite length_app. simpl.
      by rewrite (proj2 (Z.ltb_ge _ _)) by lia.
    + intros Hcap. rewrite truncate_keepLast by done. split; [|done].
      apply keepLast_snoc. lia.
  - intros Hnone. unfold Draft.updateCode. by rewrite Hnone.
  - intros file Hfile.
    destruct (draft_updateCode_hit draft fileName content now file Hfile)
      as (Hh & Hf & Hsame).
    rewrite Hh, Hf. rewrite (truncate_keepLast 1000) by done.
    change (Z.to_nat 1000) with 1000. split_and!; try done.
    + apply lookup_insert_eq.
    + intros k Hk. by rewrite lookup_insert_ne.
    + intros Hlt. apply keepLast_all. rewrite length_app. simpl. lia.
    + apply keepLast_snoc. lia.
Qed.

Lemma updateCode_spec_witness :
  let cfg := loadConfig None None in
  let op := {| so_op := None; so_userId := "s1"; so_username := "Alice" |} in
  let r := with_activeFile "gone.js" (newRoom "ABC123" 0) in
  let d := Draft.newRoom "ABC123" 0 in
  updateCode cfg r "let x = 1;" op 7 = r
  ∧ Draft.updateCode d "gone.js" "let x = 1;" 7 = d
  ∧ history (updateCode cfg (newRoom "ABC123" 0) "let x = 1;" op 7)
    = [entryOf "main.js" ("let x = 1;", op, 7%Z)].
Proof.
  intros cfg op r d.
  destruct (updateCode_spec cfg r "let x = 1;" op 7 d "gone.js")
    as (Hdrop & _ & Hddrop & _).
  destruct (updateCode_spec cfg (newRoom "ABC123" 0) "let x = 1;" op 7 d "gone.js")
    as (_ & Hhit & _).
  split; [apply Hdrop; reflexivity|].
  split; [apply Hddrop; reflexivity|].
  destruct (Hhit main_js) as (_ & _ & _ & Hpush & _); [reflexivity|].
  apply Hpush. reflexivity.
Defined.

(** ** Replay *)

Lemma getReplay_between history fromTimestamp toTimestamp now :
  getReplay history fromTimestamp toTimestamp now
  = replayBetween (Js.or_num fromTimestamp 0) (Js.or_num toTimestamp now) history.
Proof.
  unfold getReplay, replayBetween. induction history as [|e history IH]; [done|].
  simpl. rewrite IH.
  destruct (Z.leb_spec (Js.or_num fromTimestamp 0) (h_timestamp e));
    destruct (Z.leb_spec (h_timestamp e) (Js.or_num toTimestamp now)); simpl;
    case_bool_decide; try done; lia.
Qed.

Lemma replayBetween_sublist from to history :
  sublist (replayBetween from to history) history.
Proof.
  unfold replayBetween. induction history as [|e history IH]; simpl; [done|].
  destruct (bool_decide _); by constructor.
Qed.

Lemma replayBetween_In from to history e :
  In e (replayBetween from to history)
  ↔ In e history ∧ (from ≤ h_timestamp e ≤ to)%Z.
Proof.
  unfold replayBetween. rewrite filter_In.
  split; intros [Hin Hr]; (split; [done|]).
  - by apply bool_decide_eq_true_1 in Hr.
  - by apply bool_decide_eq_true_2.
Qed.

Lemma replayBetween_empty from to history :
  (to < from)%Z → replayBetween from to history = [].
Proof.
  intros Hlt. unfold replayBetween.
  induction history as [|e history IH]; simpl; [done|].
  rewrite bool_decide_eq_false_2 by lia. done.
Qed.

(** C4, as the code has it.  The replay is the history filtered by
    [lo <= timestamp <= hi], in the order of the history, where [lo] is the
    lower bound, or 0 when it is absent, and [hi] is the upper bound, or the
    current time when it is absent or 0.  So for every lower bound and every
    upper bound other than 0 the replay is exactly the entries between the
    two bounds, and it is empty when the lower bound is greater than the
    upper bound. *)
Theorem getReplay_spec (history : list HistoryEntry)
    (fromTimestamp toTimestamp : option Z) (now : Z) :
  let lo := Js.or_num fromTimestamp 0 in
  let hi := Js.or_num toTimestamp now in
  let replay := getReplay history fromTimestamp toTimestamp now in
  replay = replayBetween lo hi history
  ∧ sublist replay history
  ∧ (∀ e, In e replay ↔ In e history ∧ (lo ≤ h_timestamp e ≤ hi)%Z)
  ∧ (∀ from, fromTimestamp = Some from → lo = from)
  ∧ (fromTimestamp = None → lo = 0%Z)
  ∧ (∀ to, toTimestamp = Some to → to ≠ 0%Z → hi = to)
  ∧ (toTimestamp = None ∨ toTimestamp = Some 0%Z → hi = now)
  ∧ (∀ from to, fromTimestamp = Some from → toTimestamp = Some to → to ≠ 0%Z →
       replay = replayBetween from to history
       ∧ ((from > to)%Z → replay = [])).
Proof.
  simpl. rewrite getReplay_between.
  assert (Hlo : ∀ from, fromTimestamp = Some from → Js.or_num fromTimestamp 0 = from).
  { intros from ->. simpl. destruct (Z.eqb_spec from 0); congruence. }
  assert (Hhi : ∀ to, toTimestamp = Some to → to ≠ 0%Z →
                  Js.or_num toTimestamp now = to).
  { intros to -> Hne. simpl. destruct (Z.eqb_spec to 0); congruence. }
  split_and!; try done.
  - apply replayBetween_sublist.
  - intros e. apply replayBetween_In.
  - by intros ->.
  - by intros [-> | ->].
  - intros from to Hf Ht Hne. rewrite (Hlo _ Hf), (Hhi _ Ht Hne).
    split; [done|]. intros Hgt. apply replayBetween_empty. lia.
Qed.

Lemma getReplay_spec_witness :
  let op := {| so_op := None; so_userId := "s1"; so_username := "Alice" |} in
  let h := [entryOf "main.js" ("a", op, 100%Z); entryOf "main.js" ("b", op, 300%Z)] in
  getReplay h (Some 200%Z) (Some 100%Z) 400 = []
  ∧ getReplay h (Some 50%Z) (Some 200%Z) 400 = [entryOf "main.js" ("a", op, 100%Z)].
Proof.
  intros op h.
  destruct (getReplay_spec h (Some 200%Z) (Some 100%Z) 400)
    as (_ & _ & _ & _ & _ & _ & _ & Hempty).
  destruct (getReplay_spec h (Some 50%Z) (Some 200%Z) 400)
    as (_ & _ & _ & _ & _ & _ & _ & Hrange).
  split.
  - apply (Hempty 200%Z 100%Z); [reflexivity | reflexivity | discriminate | reflexivity].
  - destruct (Hrange 50%Z 200%Z) as [-> _];
      [reflexivity | reflexivity | discriminate | reflexivity].
Defined.

(** C4 as stated fails: an upper bound of 0 is replaced by the current
    time, so the bounds 50 and 0 return an entry stamped 100, which lies
    outside [50, 0], although 50 is greater than 0. *)
Lemma getReplay_zero_upper_bound :
  ¬ (∀ history from to now,
       getReplay history (Some from) (Some to) now = replayBetween from to history
       ∧ ((from > to)%Z → getReplay history (Some from) (Some to) now = [])).
Proof.
  intros Hclaim.
  pose (op := {| so_op := None; so_userId := "s1"; so_username := "Alice" |}).
  destruct (Hclaim [entryOf "main.js" ("a", op, 100%Z)] 50%Z 0%Z 200%Z)
    as [Heq _].
  vm_compute in Heq. discriminate Heq.
Qed.

(** ** The registry *)

Lemma boundRoom_Some s socketId sess roomId room :
  boundRoom s socketId = Some (sess, roomId, room) →
  sessions s !! socketId = Some sess ∧ currentRoom sess = Some roomId
  ∧ Js.truthy roomId = true ∧ rooms s !! roomId = Some room.
Proof. unfold boundRoom. repeat case_match; naive_solver. Qed.

Lemma users_nonempty (m : gmap string User) socketId user :
  0 < size (<[socketId := user]> m).
Proof.
  assert (size (<[socketId := user]> m) ≠ 0); [|lia].
  apply map_size_non_empty_iff, insert_non_empty.
Qed.

Lemma updateCode_users config this content operation now :
  users (updateCode config this content operation now) = users this.
Proof. unfold updateCode. by destruct (files this !! activeFile this). Qed.

Lemma switchFile_users this fileName :
  users (switchFile this fileName).1 = users this.
Proof. unfold switchFile. by destruct (files this !! fileName). Qed.

Lemma createFile_users this fileName content language :
  users (createFile this fileName content language).1 = users this.
Proof. unfold createFile. by destruct (files this !! fileName). Qed.

Lemma deleteFile_users this fileName :
  users (deleteFile this fileName).1 = users this.
Proof.
  unfold deleteFile. destruct (_ && _); [|done]. simpl. by case_bool_decide.
Qed.

Lemma registryInv_setRoom s g roomId room room' :
  registryInv (s, g) → rooms s !! roomId = Some room →
  users room' = users room →
  registryInv (setRoom s roomId room', g).
Proof.
  intros Hinv Hr Hu k. simpl. destruct (decide (roomId = k)) as [<- | Hne].
  - rewrite lookup_insert_eq, Hu. specialize (Hinv roomId). simpl in Hinv.
    by rewrite Hr in Hinv.
  - rewrite lookup_insert_ne by done. apply (Hinv k).
Qed.

Lemma registryInv_join config s g socketId roomId username now :
  registryInv (s, g) →
  registryInv (observe config (s, g) (join_room socketId roomId username now)).
Proof.
  intros Hinv. unfold observe. simpl. unfold onJoinRoom.
  destruct (sessions s !! socketId) as [sess|]; [|done].
  unfold getOrCreateRoom.
  destruct (rooms s !! roomId) as [room|] eqn:Hr; simpl; intros k; simpl;
    (destruct (decide (roomId = k)) as [<- | Hne];
     [ rewrite !lookup_insert_eq; split; [done | apply users_nonempty]
     | rewrite !lookup_insert_ne by done; apply (Hinv k) ]).
Qed.

Lemma registryInv_disconnect config s g socketId :
  registryInv (s, g) →
  registryInv (observe config (s, g) (disconnect socketId)).
Proof.
  intros Hinv. unfold observe. simpl. unfold onDisconnect.
  destruct (sessions s !! socketId) as [sess|]; [|done].
  destruct (currentRoom sess) as [roomId|]; [|done].
  destruct (currentUser sess) as [user|]; [|done].
  destruct (Js.truthy roomId); [|done].
  destruct (rooms s !! roomId) as [room|] eqn:Hr; [|done].
  case_bool_decide as Hsize; intros k; simpl;
    (destruct (decide (roomId = k)) as [<- | Hne];
     [ | rewrite ?lookup_delete_ne, !lookup_insert_ne by done; apply (Hinv k) ]).
  - rewrite lookup_delete_eq, lookup_insert_eq. right. by f_equal.
  - rewrite !lookup_insert_eq. simpl in *. split; [done | lia].
Qed.

Lemma registryInv_observe config st e :
  registryInv st → registryInv (observe config st e).
Proof.
  destruct st as [s g]. intros Hinv.
  destruct e; try done.
  - apply registryInv_join, Hinv.
  - unfold observe. simpl. unfold onCodeChange.
    destruct (boundRoom s socketId) as [[[sess roomId] room]|] eqn:Hb; [|done].
    apply boundRoom_Some in Hb as (_ & _ & _ & Hr).
    repeat case_match; try done;
      (eapply registryInv_setRoom; [done | exact Hr | apply updateCode_users]).
  - unfold observe. simpl. unfold onCursorChange.
    destruct (boundRoom s socketId) as [[[sess roomId] room]|] eqn:Hb; [|done].
    apply boundRoom_Some in Hb as (_ & _ & _ & Hr).
    by eapply registryInv_setRoom.
  - unfold observe. simpl. unfold onSwitchFile.
    destruct (boundRoom s socketId) as [[[sess roomId] room]|] eqn:Hb; [|done].
    apply boundRoom_Some in Hb as (_ & _ & _ & Hr).
    eapply registryInv_setRoom; [done | exact Hr | apply switchFile_users].
  - unfold observe. simpl. unfold onCreateFile.
    destruct (boundRoom s socketId) as [[[sess roomId] room]|] eqn:Hb; [|done].
    apply boundRoom_Some in Hb as (_ & _ & _ & Hr).
    eapply registryInv_setRoom; [done | exact Hr | apply createFile_users].
  - unfold observe. simpl. unfold onDeleteFile.
    destruct (boundRoom s socketId) as [[[sess roomId] room]|] eqn:Hb; [|done].
    apply boundRoom_Some in Hb as (_ & _ & _ & Hr).
    eapply registryInv_setRoom; [done | exact Hr | apply deleteFile_users].
  - unfold observe. simpl. unfold onChatMessage.
    destruct (boundRoom s socketId) as [[[sess roomId] room]|] eqn:Hb; [|done].
    apply boundRoom_Some in Hb as (_ & _ & _ & Hr).
    destruct (currentUser sess); [|done].
    by eapply registryInv_setRoom.
  - apply registryInv_disconnect, Hinv.
  - unfold observe. simpl. unfold onPostFile.
    destruct (rooms s !! id) as [room|] eqn:Hr; [|done].
    eapply registryInv_setRoom; [done | exact Hr | apply createFile_users].
  - unfold observe. simpl. unfold onAutoSave.
    destruct (rooms s !! roomId) as [room|] eqn:Hr; [|done].
    destruct (_ && _); [|done].
    by eapply registryInv_setRoom.
Qed.

Lemma runObserved_snoc config events e :
  runObserved config (events ++ [e])
  = observe config (runObserved config events) e.
Proof. unfold runObserved. by rewrite fold_left_app. Qed.

Lemma runObserved_run config events :
  (runObserved config events).1 = run config events.
Proof.
  induction events as [|e events IH] using rev_ind; [done|].
  rewrite runObserved_snoc. unfold run in *. rewrite fold_left_app. simpl.
  by rewrite IH.
Qed.

Lemma runObserved_inv config events : registryInv (runObserved config events).
Proof.
  induction events as [|e events IH] using rev_ind.
  - intros k. simpl. left. apply lookup_empty.
  - rewrite runObserved_snoc. by apply registryInv_observe.
Qed.

Lemma handle_removes_room config s e roomId :
  is_Some (rooms s !! roomId) → rooms (handle config s e) !! roomId = None →
  ∃ socketId, e = disconnect socketId ∧ countChange s e = Some (roomId, 0).
Proof.
  intros [room Hr] Hgone.
  assert (Hset : ∀ k room', rooms (setRoom s k room') !! roomId = None → False).
  { intros k room'. simpl. destruct (decide (k = roomId)) as [-> | Hne].
    - by rewrite lookup_insert_eq.
    - rewrite lookup_insert_ne by done. by rewrite Hr. }
  assert (Hsame : rooms s !! roomId = None → False) by (by rewrite Hr).
  destruct e; simpl in Hgone; try (by destruct Hsame).
  - unfold onJoinRoom, getOrCreateRoom in Hgone.
    destruct (sessions s !! socketId); [|by destruct Hsame].
    destruct (rooms s !! roomId0) eqn:Hr0; simpl in Hgone;
      (destruct (decide (roomId0 = roomId)) as [-> | Hne];
       [ by rewrite lookup_insert_eq in Hgone
       | rewrite !lookup_insert_ne in Hgone by done; by destruct Hsame ]).
  - unfold onCodeChange in Hgone. repeat case_match; naive_solver.
  - unfold onCursorChange in Hgone. repeat case_match; naive_solver.
  - unfold onSwitchFile in Hgone. repeat case_match; naive_solver.
  - unfold onCreateFile in Hgone. repeat case_match; naive_solver.
  - unfold onDeleteFile in Hgone. repeat case_match; naive_solver.
  - unfold onChatMessage in Hgone. repeat case_match; naive_solver.
  - exists socketId. split; [done|]. unfold onDisconnect in Hgone.
    unfold countChange.
    destruct (sessions s !! socketId) as [sess|]; [|by destruct Hsame].
    destruct (currentRoom sess) as [roomId0|]; [|by destruct Hsame].
    destruct (currentUser sess) as [user|]; [|by destruct Hsame].
    destruct (Js.truthy roomId0); [|by destruct Hsame].
    destruct (rooms s !! roomId0) as [room0|] eqn:Hr0; [|by destruct Hsame].
    case_bool_decide as Hsize; [|by destruct (Hset _ _ Hgone)].
    simpl in Hgone. destruct (decide (roomId0 = roomId)) as [-> | Hne].
    + by rewrite Hsize.
    + rewrite lookup_delete_ne in Hgone by done. by destruct Hsame.
  - unfold onPostFile in Hgone. repeat case_match; naive_solver.
  - unfold onAutoSave in Hgone. repeat case_match; naive_solver.
Qed.

Lemma setRoom_users s roomId room room' :
  rooms s !! roomId = Some room → users room' = users room →
  ∀ k, users <$> rooms (setRoom s roomId room') !! k = users <$> rooms s !! k.
Proof.
  intros Hr Hu k. simpl. destruct (decide (roomId = k)) as [<- | Hne].
  - rewrite lookup_insert_eq, Hr. simpl. by rewrite Hu.
  - by rewrite lookup_insert_ne.
Qed.

(** [countChange] reports every change of a user map: a step for which it
    reports nothing leaves the user maps of all rooms as they are, and a step
    for which it reports [(roomId, n)] changes at most the room [roomId],
    which afterwards has [n] users, or is gone with [n = 0]. *)
Lemma countChange_sound config s e :
  match countChange s e with
  | None =>
      ∀ k, users <$> rooms (handle config s e) !! k = users <$> rooms s !! k
  | Some (roomId, n) =>
      (∀ k, k ≠ roomId →
         users <$> rooms (handle config s e) !! k = users <$> rooms s !! k)
      ∧ match rooms (handle config s e) !! roomId with
        | Some room' => size (users room') = n
        | None => n = 0
        end
  end.
Proof.
  destruct e; simpl; try done.
  - unfold onJoinRoom, getOrCreateRoom.
    destruct (sessions s !! socketId); [|done].
    destruct (rooms s !! roomId) eqn:Hr; simpl;
      (split; [intros k Hk; by rewrite !lookup_insert_ne | by rewrite lookup_insert_eq]).
  - unfold onCodeChange.
    destruct (boundRoom s socketId) as [[[sess roomId] room]|] eqn:Hb; [|done].
    apply boundRoom_Some in Hb as (_ & _ & _ & Hr).
    repeat case_match; try done;
      (eapply setRoom_users; [exact Hr | apply updateCode_users]).
  - unfold onCursorChange.
    destruct (boundRoom s socketId) as [[[sess roomId] room]|] eqn:Hb; [|done].
    apply boundRoom_Some in Hb as (_ & _ & _ & Hr). by eapply setRoom_users.
  - unfold onSwitchFile.
    destruct (boundRoom s socketId) as [[[sess roomId] room]|] eqn:Hb; [|done].
    apply boundRoom_Some in Hb as (_ & _ & _ & Hr).
    eapply setRoom_users; [exact Hr | apply switchFile_users].
  - unfold onCreateFile.
    destruct (boundRoom s socketId) as [[[sess roomId] room]|] eqn:Hb; [|done].
    apply boundRoom_Some in Hb as (_ & _ & _ & Hr).
    eapply setRoom_users; [exact Hr | apply createFile_users].
  - unfold onDeleteFile.
    destruct (boundRoom s socketId) as [[[sess roomId] room]|] eqn:Hb; [|done].
    apply boundRoom_Some in Hb as (_ & _ & _ & Hr).
    eapply setRoom_users; [exact Hr | apply deleteFile_users].
  - unfold onChatMessage.
    destruct (boundRoom s socketId) as [[[sess roomId] room]|] eqn:Hb; [|done].
    apply boundRoom_Some in Hb as (_ & _ & _ & Hr).
    destruct (currentUser sess); [|done]. by eapply setRoom_users.
  - unfold onDisconnect.
    destruct (sessions s !! socketId) as [sess|]; [|done].
    destruct (currentRoom sess) as [roomId|]; [|done].
    destruct (currentUser sess) as [user|]; [|done].
    destruct (Js.truthy roomId); [|done].
    destruct (rooms s !! roomId) as [room|] eqn:Hr; [|done].
    case_bool_decide as Hsize; simpl.
    + split; [intros k Hk; by rewrite lookup_delete_ne|].
      by rewrite lookup_delete_eq.
    + split; [intros k Hk; by rewrite lookup_insert_ne|].
      by rewrite lookup_insert_eq.
  - unfold onPostFile.
    destruct (rooms s !! id) as [room|] eqn:Hr; [|done].
    eapply setRoom_users; [exact Hr | apply createFile_users].
  - unfold onAutoSave.
    destruct (rooms s !! roomId) as [room|] eqn:Hr; [|done].
    destruct (_ && _); [|done]. by eapply setRoom_users.
Qed.

(** C5.  In every state that the server reaches by handling events, a room
    id is registered if and only if the last call that changed the user
    count of its room ([addUser] in [join-room], [removeUser] in
    [disconnect]) left a count greater than zero; a registered room has that
    count.  [join-room] on a connected socket leaves the room registered
    with the socket among its users, and on an unknown id the room is a new
    room with that one user.  The [disconnect] that removes the last user
    deletes the room in the same step, and a [disconnect] that leaves users
    keeps it.  No other step removes a room from the registry, and the
    recorded counts are sound: a step that records nothing changes no user
    map, and a step that records a count for a room changes no other room
    and leaves that room with the recorded count, or deleted with count 0. *)
Theorem room_registered_iff_users config :
  (∀ events roomId,
     let st := runObserved config events in
     st.1 = run config events
     ∧ (is_Some (rooms (run config events) !! roomId)
        ↔ ∃ n, st.2 !! roomId = Some n ∧ 0 < n)
     ∧ (∀ room, rooms (run config events) !! roomId = Some room →
          st.2 !! roomId = Some (size (users room)) ∧ 0 < size (users room)))
  ∧ (∀ s socketId roomId username now,
       is_Some (sessions s !! socketId) →
       let s' := handle config s (join_room socketId roomId username now) in
       ∃ room', rooms s' !! roomId = Some room'
                ∧ is_Some (users room' !! socketId)
                ∧ 0 < size (users room')
                ∧ (rooms s !! roomId = None →
                   room' = (addUser (newRoom roomId now) socketId username now).1
                   ∧ size (users room') = 1))
  ∧ (∀ s socketId sess roomId user room,
       sessions s !! socketId = Some sess →
       currentRoom sess = Some roomId → roomId ≠ EmptyString →
       currentUser sess = Some user →
       rooms s !! roomId = Some room →
       let s' := handle config s (disconnect socketId) in
       let room' := removeUser room socketId in
       (size (users room') = 0 → rooms s' !! roomId = None)
       ∧ (size (users room') ≠ 0 → rooms s' !! roomId = Some room'))
  ∧ (∀ s e roomId,
       is_Some (rooms s !! roomId) →
       rooms (handle config s e) !! roomId = None →
       ∃ socketId, e = disconnect socketId
                   ∧ countChange s e = Some (roomId, 0))
  ∧ (∀ s e,
       match countChange s e with
       | None =>
           ∀ k, users <$> rooms (handle config s e) !! k = users <$> rooms s !! k
       | Some (roomId, n) =>
           (∀ k, k ≠ roomId →
              users <$> rooms (handle config s e) !! k = users <$> rooms s !! k)
           ∧ match rooms (handle config s e) !! roomId with
             | Some room' => size (users room') = n
             | None => n = 0
             end
       end).
Proof.
  split_and!; [| | | |apply countChange_sound].
  - intros events roomId st. subst st.
    pose proof (runObserved_inv config events roomId) as Hinv.
    rewrite runObserved_run in Hinv. split_and!.
    + apply runObserved_run.
    + destruct (rooms (run config events) !! roomId) as [room|].
      * split; [|eauto]. intros _. exists (size (users room)). done.
      * split; [by intros [? ?]|]. intros (n & Hn & Hpos).
        destruct Hinv as [Hg | Hg]; rewrite Hg in Hn; simplify_eq. lia.
    + intros room Hroom. by rewrite Hroom in Hinv.
  - intros s socketId roomId username now [sess Hsess]. simpl.
    unfold onJoinRoom, getOrCreateRoom. rewrite Hsess.
    destruct (rooms s !! roomId) as [room|] eqn:Hr; simpl;
      eexists; rewrite lookup_insert_eq; (split; [reflexivity|]); simpl;
      rewrite lookup_insert_eq; (split; [eauto|]);
      (split; [apply users_nonempty|]); [done|].
    intros _. split; [done|]. by rewrite insert_empty, map_size_singleton.
  - intros s socketId sess roomId user room Hsess Hcur Hne Huser Hroom. simpl.
    unfold onDisconnect. rewrite Hsess, Hcur, Huser, Hroom.
    assert (Js.truthy roomId = true) as -> by (by destruct roomId).
    split; intros Hsize.
    + rewrite bool_decide_eq_true_2 by done. simpl. apply lookup_delete_eq.
    + rewrite bool_decide_eq_false_2 by done. simpl. apply lookup_insert_eq.
  - intros s e roomId. apply handle_removes_room.
Qed.

Lemma room_registered_iff_users_witness :
  let cfg := loadConfig None None in
  let s := run cfg [connection "s1"; join_room "s1" "ABC123" (Some "Alice") 1] in
  rooms (handle cfg s (disconnect "s1")) !! "ABC123" = None
  ∧ is_Some (rooms s !! "ABC123").
Proof.
  intros cfg s.
  destruct (room_registered_iff_users cfg) as (_ & Hjoin & Hleave & _).
  split.
  - refine (proj1 (Hleave s "s1" _ "ABC123" _ _ _ _ _ _ _) _);
      [reflexivity | reflexivity | discriminate | reflexivity
      | reflexivity | reflexivity].
  - destruct (Hjoin (run cfg [connection "s1"]) "s1" "ABC123" (Some "Alice") 1%Z)
      as (room' & Hroom & _).
    + vm_compute. eauto.
    + exists room'. exact Hroom.
Defined.

(** * Further properties of the room *)

(** ** The active file *)

Lemma updateCode_activeFile config this content operation now :
  activeFile (updateCode config this content operation now) = activeFile this.
Proof. unfold updateCode. by destruct (files this !! activeFile this). Qed.

Lemma createFile_activeFile this fileName content language :
  activeFile (createFile this fileName content language).1 = activeFile this.
Proof. unfold createFile. by destruct (files this !! fileName). Qed.

Lemma applyOp_activeResolves config this o :
  activeResolves this → activeResolves (applyOp config this o).
Proof.
  intros [Hmain Hactive]. split; [by apply applyOp_keeps_main|].
  destruct o; simpl; try done.
  - rewrite updateCode_activeFile. by apply updateCode_keeps.
  - unfold switchFile. destruct (files this !! fileName) eqn:Hf; simpl; [|done].
    rewrite Hf. eauto.
  - rewrite createFile_activeFile. by apply createFile_keeps.
  - unfold deleteFile.
    destruct (bool_decide (fileName ≠ "main.js")) eqn:Hm; simpl; [|done].
    apply bool_decide_eq_true_1 in Hm.
    destruct (bool_decide (is_Some _)); simpl; [|done].
    case_bool_decide as Ha; simpl.
    + by rewrite lookup_delete_ne.
    + by rewrite lookup_delete_ne.
Qed.

Lemma applyOps_activeResolves config ops : ∀ this,
  activeResolves this → activeResolves (applyOps config this ops).
Proof.
  induction ops as [|o ops IH]; intros this Hinv; simpl; [done|].
  by apply IH, applyOp_activeResolves.
Qed.

Lemma newRoom_activeResolves id now : activeResolves (newRoom id now).
Proof. split; simpl; rewrite lookup_insert_eq; eauto. Qed.

(** X1.  In every room built from [new Room] by calls of its methods, the
    active file is a key of the file map; every method keeps this as long
    as [main.js] is there.  So in such a room [updateCode] never drops an
    edit: the active file has the new content afterwards, and [getState]
    reports it as the code of the room. *)
Theorem activeFile_resolves config :
  (∀ id t0 ops,
     is_Some (files (applyOps config (newRoom id t0) ops)
                !! activeFile (applyOps config (newRoom id t0) ops)))
  ∧ (∀ this o, activeResolves this → activeResolves (applyOp config this o))
  ∧ (∀ id t0 ops content operation now,
       let this := applyOps config (newRoom id t0) ops in
       let r' := updateCode config this content operation now in
       file_content <$> files r' !! activeFile r' = Some content
       ∧ getState_code r' = content).
Proof.
  split_and!.
  - intros id t0 ops.
    apply (applyOps_activeResolves config ops), newRoom_activeResolves.
  - apply applyOp_activeResolves.
  - intros id t0 ops content operation now this r'. subst r'.
    destruct (applyOps_activeResolves config ops (newRoom id t0)
                (newRoom_activeResolves id t0)) as [_ [file Hfile]].
    fold this in Hfile. unfold getState_code.
    rewrite updateCode_activeFile. unfold updateCode. rewrite Hfile. simpl.
    by rewrite lookup_insert_eq.
Qed.

Lemma activeFile_resolves_witness :
  let cfg := loadConfig None None in
  let r := (createFile (newRoom "ABC123" 0) "utils.js" None None).1 in
  activeResolves (applyOp cfg r (OpDeleteFile "utils.js")).
Proof.
  intros cfg r.
  apply (proj1 (proj2 (activeFile_resolves cfg)) r (OpDeleteFile "utils.js")).
  split; vm_compute; eauto.
Defined.

(** ** Keys and names *)

Lemma applyOp_keyedByName config this o :
  keyedByName this → keyedByName (applyOp config this o).
Proof.
  intros [Hfiles Husers]. destruct o; simpl.
  - split; [done|]. simpl. intros k u.
    intros [[<- <-] | [_ Hk]]%lookup_insert_Some; [done | by apply Husers].
  - split; [done|]. simpl. intros k u [_ Hk]%lookup_delete_Some. by apply Husers.
  - unfold updateCode. destruct (files this !! activeFile this) eqn:Hf; [|done].
    split; [|done]. simpl. intros k f'.
    intros [[<- <-] | [_ Hk]]%lookup_insert_Some; [|by apply Hfiles].
    simpl. by apply Hfiles.
  - done.
  - done.
  - unfold switchFile. by destruct (files this !! fileName).
  - unfold createFile. destruct (files this !! fileName) eqn:Hf; [done|].
    split; [|done]. simpl. intros k f'.
    intros [[<- <-] | [_ Hk]]%lookup_insert_Some; [done | by apply Hfiles].
  - unfold deleteFile. destruct (_ && _); [|done]. simpl.
    case_bool_decide; (split; [|done]); simpl;
      intros k f' [_ Hk]%lookup_delete_Some; by apply Hfiles.
Qed.

Lemma applyOps_keyedByName config ops : ∀ this,
  keyedByName this → keyedByName (applyOps config this ops).
Proof.
  induction ops as [|o ops IH]; intros this Hinv; simpl; [done|].
  by apply IH, applyOp_keyedByName.
Qed.

Lemma newRoom_keyedByName id now : keyedByName (newRoom id now).
Proof.
  split; simpl.
  - intros k f [[<- <-] | [_ Hk]]%lookup_insert_Some; [done|].
    by rewrite lookup_empty in Hk.
  - intros k u Hk. by rewrite lookup_empty in Hk.
Qed.

Lemma applyOp_room_id config this o :
  room_id (applyOp config this o) = room_id this.
Proof.
  destruct o; simpl; try done.
  - unfold updateCode. by destruct (files this !! activeFile this).
  - unfold switchFile. by destruct (files this !! fileName).
  - unfold createFile. by destruct (files this !! fileName).
  - unfold deleteFile. destruct (_ && _); [|done]. simpl. by case_bool_decide.
Qed.

Lemma applyOps_room_id config ops : ∀ this,
  room_id (applyOps config this ops) = room_id this.
Proof.
  induction ops as [|o ops IH]; intros this; simpl; [done|].
  by rewrite IH, applyOp_room_id.
Qed.

(** X2.  In every room built from [new Room] by calls of its methods, a file
    is stored under its own name and a user under its own id, so the key of
    an entry and the name or id it carries never disagree; the id of the
    room is the one given to the constructor.  Every method preserves
    this. *)
Theorem entries_keyed_by_name config :
  (∀ id t0 ops,
     let r := applyOps config (newRoom id t0) ops in
     (∀ k f, files r !! k = Some f → file_name f = k)
     ∧ (∀ k u, users r !! k = Some u → user_id u = k)
     ∧ room_id r = id)
  ∧ (∀ this o, keyedByName this → keyedByName (applyOp config this o)).
Proof.
  split; [|apply applyOp_keyedByName].
  intros id t0 ops r. subst r.
  destruct (applyOps_keyedByName config ops (newRoom id t0)
              (newRoom_keyedByName id t0)) as [Hf Hu].
  split_and!; try done. apply applyOps_room_id.
Qed.

Lemma entries_keyed_by_name_witness :
  let cfg := loadConfig None None in
  let ops := [OpAddUser "s1" (Some "Alice") 1; OpCreateFile "utils.js" None None] in
  let f := {| file_name := "utils.js"; file_content := EmptyString;
              file_language := "javascript" |} in
  file_name f = "utils.js".
Proof.
  intros cfg ops f.
  apply (proj1 (proj1 (entries_keyed_by_name cfg) "ABC123" 0%Z ops) "utils.js" f).
  vm_compute. reflexivity.
Defined.

(** ** Switching, creating and deleting files *)

(** X3.  [switchFile] with a name that is not a key of the file map returns
    [null] and leaves the room as it is.  With a stored name it returns the
    stored file and makes it the active file, changing nothing else; the
    next [updateCode] then writes that file and no other, and [getState]
    reports the new content.  After a successful [deleteFile] of a name,
    [switchFile] to that name fails. *)
Theorem switchFile_spec config (this : Room) (fileName : string) :
  (files this !! fileName = None → switchFile this fileName = (this, None))
  ∧ (∀ f, files this !! fileName = Some f →
       let r' := (switchFile this fileName).1 in
       (switchFile this fileName).2 = Some f
       ∧ activeFile r' = fileName
       ∧ files r' = files this
       ∧ sameButFiles this r'
       ∧ (∀ content operation now,
            let r'' := updateCode config r' content operation now in
            files r'' !! fileName = Some (with_content content f)
            ∧ (∀ k, k ≠ fileName → files r'' !! k = files this !! k)
            ∧ getState_code r'' = content))
  ∧ ((deleteFile this fileName).2 = true →
       switchFile (deleteFile this fileName).1 fileName
       = ((deleteFile this fileName).1, None)).
Proof.
  split_and!.
  - intros Hnone. unfold switchFile. by rewrite Hnone.
  - intros f Hf. unfold switchFile. rewrite Hf. simpl. split_and!; try done.
    intros content operation now. unfold getState_code.
    rewrite updateCode_activeFile. unfold updateCode. simpl. rewrite Hf. simpl.
    rewrite lookup_insert_eq. split_and!; try done.
    intros k Hk. by rewrite lookup_insert_ne.
  - unfold deleteFile.
    destruct (bool_decide (fileName ≠ "main.js") && _); simpl; [|done].
    intros _. unfold switchFile.
    case_bool_decide; simpl; by rewrite lookup_delete_eq.
Qed.

Lemma switchFile_spec_witness :
  let cfg := loadConfig None None in
  let op := {| so_op := None; so_userId := "s1"; so_username := "Alice" |} in
  let r := (createFile (newRoom "ABC123" 0) "utils.js" None None).1 in
  switchFile r "gone.js" = (r, None)
  ∧ getState_code (updateCode cfg (switchFile r "utils.js").1 "let x = 1;" op 7)
    = "let x = 1;"
  ∧ switchFile (deleteFile r "utils.js").1 "utils.js"
    = ((deleteFile r "utils.js").1, None).
Proof.
  intros cfg op r.
  destruct (switchFile_spec cfg r "gone.js") as (Hmiss & _).
  destruct (switchFile_spec cfg r "utils.js") as (_ & Hhit & Hdel).
  split; [apply Hmiss; reflexivity|].
  split; [|apply Hdel; reflexivity].
  destruct (Hhit {| file_name := "utils.js"; file_content := EmptyString;
                    file_language := "javascript" |})
    as (_ & _ & _ & _ & Hwrite); [reflexivity|].
  apply Hwrite.
Defined.

(** X4.  Creating a file and deleting it again gives back the room as it
    was, when the name is new, is not [main.js] and is not the name of the
    active file; [deleteFile] reports success.  Creating a file never
    changes the active file. *)
Theorem createFile_deleteFile (this : Room) (fileName : string)
    (content language : option string) :
  (files this !! fileName = None → fileName ≠ "main.js" →
   activeFile this ≠ fileName →
   deleteFile (createFile this fileName content language).1 fileName = (this, true))
  ∧ activeFile (createFile this fileName content language).1 = activeFile this.
Proof.
  split; [|apply createFile_activeFile].
  intros Hnone Hne Hactive. unfold createFile. rewrite Hnone. simpl.
  unfold deleteFile. simpl. rewrite lookup_insert_eq.
  rewrite !bool_decide_eq_true_2 by eauto. simpl.
  rewrite bool_decide_eq_false_2 by done.
  rewrite delete_insert_id by done. by destruct this.
Qed.

Lemma createFile_deleteFile_witness :
  let r := newRoom "ABC123" 0 in
  deleteFile (createFile r "utils.js" None None).1 "utils.js" = (r, true).
Proof.
  intros r.
  apply (proj1 (createFile_deleteFile r "utils.js" None None));
    [reflexivity | discriminate | discriminate].
Defined.

(** ** Last write wins *)

Lemma updateCodeCalls_files config calls : ∀ this file c,
  files this !! activeFile this = Some file →
  lastContent calls = Some c →
  let r' := applyOps config this (updateCodeCalls calls) in
  activeFile r' = activeFile this
  ∧ files r' !! activeFile this = Some (with_content c file)
  ∧ (∀ k, k ≠ activeFile this → files r' !! k = files this !! k).
Proof.
  induction calls as [|[[content operation] now] calls IH];
    intros this file c Hfile Hlast; [done|].
  change (applyOps config this (updateCodeCalls ((content, operation, now) :: calls)))
    with (applyOps config (updateCode config this content operation now)
            (updateCodeCalls calls)).
  rewrite (updateCode_hit _ _ _ _ _ file Hfile).
  set (r1 := with_history _ _).
  assert (Hr1 : files r1 !! activeFile r1 = Some (with_content content file))
    by (simpl; apply lookup_insert_eq).
  destruct calls as [|call calls].
  - simpl in *. injection Hlast as <-. split_and!; try done.
    intros k Hk. by rewrite lookup_insert_ne.
  - destruct (IH r1 (with_content content file) c Hr1) as (Ha & Hf & Hrest).
    { by rewrite <- Hlast. }
    change (activeFile r1) with (activeFile this) in Ha, Hf, Hrest.
    split_and!; try done.
    intros k Hk. rewrite Hrest by done. simpl. by rewrite lookup_insert_ne.
Qed.

(** X5.  After a sequence of [updateCode] calls on a room whose active file
    exists, the content of the active file is the content of the last
    call, whatever the earlier calls wrote; its name and language, the
    other files and the active file itself are unchanged, and [getState]
    reports the content of the last call. *)
Theorem updateCode_last_write_wins config (this : Room)
    (calls : list UpdateCodeCall) (file : File) (c : string) :
  files this !! activeFile this = Some file →
  lastContent calls = Some c →
  let r' := applyOps config this (updateCodeCalls calls) in
  files r' !! activeFile this = Some (with_content c file)
  ∧ (∀ k, k ≠ activeFile this → files r' !! k = files this !! k)
  ∧ activeFile r' = activeFile this
  ∧ getState_code r' = c.
Proof.
  intros Hfile Hlast r'.
  destruct (updateCodeCalls_files config calls this file c Hfile Hlast)
    as (Ha & Hf & Hrest).
  fold r' in Ha, Hf, Hrest. split_and!; try done.
  unfold getState_code. by rewrite Ha, Hf.
Qed.

Lemma updateCode_last_write_wins_witness :
  let cfg := loadConfig None None in
  let op := {| so_op := None; so_userId := "s1"; so_username := "Alice" |} in
  let calls : list UpdateCodeCall := [("a", op, 1%Z); ("ab", op, 2%Z)] in
  getState_code (applyOps cfg (newRoom "ABC123" 0) (updateCodeCalls calls)) = "ab".
Proof.
  intros cfg op calls.
  apply (updateCode_last_write_wins cfg (newRoom "ABC123" 0) calls main_js "ab");
    reflexivity.
Defined.

(** ** The bounded chat log *)

Lemma slice_from_keepLast {A} (n : Z) (l : list A) :
  (0 < n)%Z → Js.slice_from (- n) l = keepLast (Z.to_nat n) l.
Proof.
  intros Hn. unfold Js.slice_from, keepLast.
  rewrite (proj2 (Z.ltb_lt (- n) 0)) by lia. f_equal. lia.
Qed.

Lemma applyOp_chat config this o :
  chat (applyOp config this o) =
    match o with
    | OpAddChatMessage m now =>
        truncate (chatMessageLimit config) (chat this ++ [chatEntryOf (m, now)])
    | _ => chat this
    end.
Proof.
  destruct o; simpl; try done.
  - unfold updateCode. by destruct (files this !! activeFile this).
  - unfold switchFile. by destruct (files this !! fileName).
  - unfold createFile. by destruct (files this !! fileName).
  - unfold deleteFile. destruct (_ && _); [|done]. simpl. by case_bool_decide.
Qed.

Lemma applyOps_chat_bound config ops : ∀ this,
  (0 < chatMessageLimit config)%Z →
  (Z.of_nat (length (chat this)) ≤ chatMessageLimit config)%Z →
  (Z.of_nat (length (chat (applyOps config this ops))) ≤ chatMessageLimit config)%Z.
Proof.
  induction ops as [|o ops IH]; intros this Hcap Hlen; simpl; [done|].
  apply IH; [done|]. rewrite applyOp_chat. destruct o; try done.
  by apply truncate_length.
Qed.

Lemma chatCalls_chat config messages : ∀ this,
  (0 < chatMessageLimit config)%Z →
  (Z.of_nat (length (chat this)) ≤ chatMessageLimit config)%Z →
  chat (applyOps config this (chatCalls messages))
  = keepLast (Z.to_nat (chatMessageLimit config))
      (chat this ++ (chatEntryOf <$> messages)).
Proof.
  induction messages as [|[m now] messages IH]; intros this Hcap Hlen.
  - simpl. rewrite app_nil_r, keepLast_all; [done|lia].
  - change (applyOps config this (chatCalls ((m, now) :: messages)))
      with (applyOps config (addChatMessage config this m now) (chatCalls messages)).
    rewrite IH; simpl; try done.
    + rewrite truncate_keepLast by done.
      rewrite keepLast_app_keepLast. by rewrite <- app_assoc.
    + by apply truncate_length.
Qed.

(** X6.  With a positive chat cap, the chat log of a room never holds more
    than cap entries, and after a sequence of [addChatMessage] calls it is
    the last cap entries of the old log followed by the new messages, each
    stamped with the time of its call, in the order of the calls.
    [getState] reports the last 50 entries of the log, in their order. *)
Theorem chat_keeps_last_cap config (Hcap : (0 < chatMessageLimit config)%Z) :
  let cap := chatMessageLimit config in
  (∀ id t0 ops,
     (Z.of_nat (length (chat (applyOps config (newRoom id t0) ops))) ≤ cap)%Z)
  ∧ (∀ this messages,
       (Z.of_nat (length (chat this)) ≤ cap)%Z →
       chat (applyOps config this (chatCalls messages))
       = keepLast (Z.to_nat cap) (chat this ++ (chatEntryOf <$> messages)))
  ∧ (∀ this,
       getState_chat this = keepLast 50 (chat this)
       ∧ length (getState_chat this) = min 50 (length (chat this))
       ∧ getState_chat this `suffix_of` chat this).
Proof.
  intros cap. subst cap. split_and!.
  - intros id t0 ops. apply applyOps_chat_bound; [done|]. simpl. lia.
  - intros this messages. by apply chatCalls_chat.
  - intros this. unfold getState_chat.
    rewrite (slice_from_keepLast 50) by done. change (Z.to_nat 50) with 50.
    split_and!; [done | apply keepLast_length | apply suffix_drop].
Qed.

Lemma chat_keeps_last_cap_witness :
  let m := {| chat_id := "7s1"; chat_userId := "s1"; chat_username := "Alice";
              chat_color := Some "#FF6B6B"; chat_message := "hi" |} in
  length (chat (applyOps (loadConfig None None) (newRoom "ABC123" 0)
                  (chatCalls (replicate 120 (m, 7%Z))))) = 100.
Proof.
  intros m.
  rewrite (proj1 (proj2 (chat_keeps_last_cap (loadConfig None None) eq_refl))
             (newRoom "ABC123" 0) (replicate 120 (m, 7%Z))).
  - reflexivity.
  - simpl. lia.
Defined.

(** ** Users that leave and join *)

(** X7.  [removeUser] with a socket id that is neither a user nor has a
    cursor leaves the room as it is, so removing twice is the same as
    removing once; it changes no other user and no other cursor.  Adding a
    user under a new socket id and removing it again gives back the room as
    it was. *)
Theorem removeUser_spec (this : Room) (socketId : string) :
  (users this !! socketId = None → cursors this !! socketId = None →
   removeUser this socketId = this)
  ∧ removeUser (removeUser this socketId) socketId = removeUser this socketId
  ∧ (∀ k, k ≠ socketId →
       users (removeUser this socketId) !! k = users this !! k
       ∧ cursors (removeUser this socketId) !! k = cursors this !! k)
  ∧ (∀ username now,
       users this !! socketId = None → cursors this !! socketId = None →
       removeUser (addUser this socketId username now).1 socketId = this)
  ∧ (is_Some (users this !! socketId) →
       S (size (users (removeUser this socketId))) = size (users this)).
Proof.
  split_and!.
  - intros Hu Hc. unfold removeUser. rewrite !delete_id by done. by destruct this.
  - unfold removeUser. simpl. by rewrite !delete_delete_eq.
  - intros k Hk. simpl. by rewrite !lookup_delete_ne.
  - intros username now Hu Hc. unfold removeUser. simpl.
    rewrite delete_insert_id, delete_id by done. by destruct this.
  - intros Hs. simpl. rewrite map_size_delete_Some by done.
    assert (size (users this) ≠ 0); [|lia].
    apply map_size_non_empty_iff. intros Hempty. rewrite Hempty in Hs.
    destruct Hs as [u Hu]. by rewrite lookup_empty in Hu.
Qed.

Lemma removeUser_spec_witness :
  let r := newRoom "ABC123" 0 in
  removeUser r "s1" = r
  ∧ removeUser (addUser r "s1" (Some "Alice") 1).1 "s1" = r.
Proof.
  intros r.
  destruct (removeUser_spec r "s1") as (Habsent & _ & _ & Hround & _).
  split; [apply Habsent; reflexivity | apply Hround; reflexivity].
Defined.

Lemma addUser_default this socketId now :
  addUser this socketId None now
  = (with_users (<[socketId := defaultUser socketId (size (users this)) now]>
                   (users this)) this,
     defaultUser socketId (size (users this)) now).
Proof. reflexivity. Qed.

Lemma joinAll_users ids : ∀ this now,
  NoDup ids → (∀ id, id ∈ ids → users this !! id = None) →
  size (users (joinAll this ids now)) = size (users this) + length ids
  ∧ (∀ k, k ∉ ids → users (joinAll this ids now) !! k = users this !! k)
  ∧ (∀ i id, ids !! i = Some id →
       users (joinAll this ids now) !! id
       = Some (defaultUser id (size (users this) + i) now)).
Proof.
  induction ids as [|id0 ids IH]; intros this now Hnodup Hfresh.
  - simpl. split_and!; [lia | done | intros i id Hi; by rewrite lookup_nil in Hi].
  - apply NoDup_cons in Hnodup as [Hnotin Hnodup].
    change (joinAll this (id0 :: ids) now)
      with (joinAll (addUser this id0 None now).1 ids now).
    rewrite addUser_default. simpl. set (r1 := with_users _ this).
    assert (Hsize : size (users r1) = S (size (users this))).
    { simpl. apply map_size_insert_None, Hfresh. by left. }
    destruct (IH r1 now Hnodup) as (Hs & Hold & Hnew).
    { intros id Hid. simpl. rewrite lookup_insert_ne.
      - apply Hfresh. by right.
      - intros ->. done. }
    rewrite Hsize in Hs, Hnew. split_and!.
    + simpl. lia.
    + intros k Hk. apply not_elem_of_cons in Hk as [Hne Hk].
      rewrite Hold by done. simpl. by rewrite lookup_insert_ne.
    + intros [|i] id Hi; simpl in Hi.
      * injection Hi as <-. rewrite Hold by done. simpl.
        rewrite lookup_insert_eq. do 2 f_equal. lia.
      * rewrite (Hnew i id Hi). do 2 f_equal. lia.
Qed.

(** X8.  When sockets with distinct ids join a new room one after the other
    without giving a name, the room has as many users as sockets, and the
    socket at position [i] (from 0) is stored with the name [User<i+1>] and
    the colour [userColors[i % 8]].  The first eight users have pairwise
    different colours, and the user at position [i + 8] has the colour of
    the user at position [i]. *)
Theorem joins_assign_in_order (id : string) (t0 : Z) (socketIds : list string)
    (now : Z) :
  NoDup socketIds →
  let r := joinAll (newRoom id t0) socketIds now in
  size (users r) = length socketIds
  ∧ (∀ i s, socketIds !! i = Some s →
       users r !! s = Some (defaultUser s i now))
  ∧ (∀ i j si sj ui uj,
       socketIds !! i = Some si → socketIds !! j = Some sj →
       users r !! si = Some ui → users r !! sj = Some uj →
       i < 8 → j < 8 → i ≠ j → user_color ui ≠ user_color uj)
  ∧ (∀ i si sj ui uj,
       socketIds !! i = Some si → socketIds !! (i + 8) = Some sj →
       users r !! si = Some ui → users r !! sj = Some uj →
       user_color ui = user_color uj).
Proof.
  intros Hnodup r.
  destruct (joinAll_users socketIds (newRoom id t0) now Hnodup)
    as (Hsize & _ & Hnew); [done|].
  fold r in Hsize, Hnew. simpl in Hsize, Hnew.
  rewrite map_size_empty in Hsize, Hnew. simpl in Hsize, Hnew.
  split_and!; try done.
  - intros i j si sj ui uj Hi Hj Hui Huj Hi8 Hj8 Hne.
    rewrite (Hnew i si Hi) in Hui. rewrite (Hnew j sj Hj) in Huj.
    injection Hui as <-. injection Huj as <-. cbn [user_color defaultUser].
    rewrite !Nat.mod_small by done. intros Heq.
    destruct (lookup_lt_is_Some_2 userColors i Hi8) as [c Hc].
    rewrite Hc in Heq. symmetry in Heq. apply Hne.
    assert (NoDup userColors) as Hcolors by (unfold userColors; compute_done).
    exact (NoDup_lookup userColors i j c Hcolors Hc Heq).
  - intros i si sj ui uj Hi Hj Hui Huj.
    rewrite (Hnew i si Hi) in Hui. rewrite (Hnew _ sj Hj) in Huj.
    injection Hui as <-. injection Huj as <-. cbn [user_color defaultUser].
    f_equal. replace (i + 8) with (i + 1 * 8) by lia.
    by rewrite Nat.Div0.mod_add.
Qed.

Lemma joins_assign_in_order_witness :
  users (joinAll (newRoom "ABC123" 0) ["s1"; "s2"; "s3"] 5) !! "s3"
  = Some (defaultUser "s3" 2 5).
Proof.
  assert (Hnodup : NoDup ["s1"; "s2"; "s3"]) by compute_done.
  apply (proj1 (proj2 (joins_assign_in_order "ABC123" 0 _ 5 Hnodup)) 2 "s3").
  reflexivity.
Defined.

(** X9.  Default names and colours are taken from the current number of
    users, so they repeat after a user has left: the socket that joins
    without a name after one of the [n] users of a room has left is named
    [User<n>] and gets the colour [userColors[(n - 1) % 8]].  In a new room,
    after two sockets have joined and the first has left, a third socket
    gets the name and the colour that the second one still has. *)
Theorem default_name_repeats_after_leave (this : Room) (leaving joining : string)
    (now : Z) :
  (is_Some (users this !! leaving) →
   (addUser (removeUser this leaving) joining None now).2
   = defaultUser joining (size (users this) - 1) now)
  ∧ (∀ id t0 s1 s2 t1 t2,
       s1 ≠ s2 → joining ≠ s2 →
       let r1 := (addUser (addUser (newRoom id t0) s1 None t1).1 s2 None t2).1 in
       let r := (addUser (removeUser r1 s1) joining None now).1 in
       ∃ u2 u3, users r !! s2 = Some u2 ∧ users r !! joining = Some u3
                ∧ user_username u2 = "User2" ∧ user_username u3 = "User2"
                ∧ user_color u3 = user_color u2).
Proof.
  split.
  - intros Hs. rewrite addUser_default. simpl.
    rewrite map_size_delete_Some by done. do 2 f_equal. lia.
  - intros id t0 s1 s2 t1 t2 H12 H32 r1 r.
    assert (Hr1 : users r1
                  = <[s2 := defaultUser s2 1 t2]> (<[s1 := defaultUser s1 0 t1]> ∅)).
    { subst r1. rewrite !addUser_default. cbn [fst users with_users newRoom].
      by rewrite map_size_empty, insert_empty, map_size_singleton. }
    assert (Hr : users r
                 = <[joining := defaultUser joining 1 now]>
                     (<[s2 := defaultUser s2 1 t2]> ∅)).
    { subst r. rewrite addUser_default.
      cbn [fst users with_users removeUser with_cursors]. rewrite Hr1.
      rewrite delete_insert_ne by done.
      rewrite delete_insert_eq, delete_empty.
      by rewrite insert_empty, map_size_singleton. }
    exists (defaultUser s2 1 t2), (defaultUser joining 1 now). rewrite Hr.
    rewrite lookup_insert_ne by done. rewrite !lookup_insert_eq. done.
Qed.

Lemma default_name_repeats_after_leave_witness :
  let r := (addUser (addUser (newRoom "ABC123" 0) "s1" None 1).1 "s2" None 2).1 in
  (addUser (removeUser r "s1") "s3" None 3).2 = defaultUser "s3" 1 3.
Proof.
  intros r.
  apply (proj1 (default_name_repeats_after_leave r "s1" "s3" 3)).
  vm_compute. eauto.
Defined.

(** * Further properties of the reconciliation and the replay *)

Lemma transformStep_skip op cur prior :
  (op_timestamp op ≤ op_timestamp prior)%Z
  ∨ (op_type prior ≠ Some "insert" ∧ op_type prior ≠ Some "delete") →
  transformStep op cur prior = cur.
Proof.
  intros Hskip. unfold transformStep.
  destruct (Z.ltb_spec (op_timestamp prior) (op_timestamp op)); [|done].
  destruct Hskip as [? | [Hi Hd]]; [lia|].
  by rewrite !bool_decide_eq_false_2 by done.
Qed.

(** X10.  [transformOperation] returns the incoming descriptor as it is
    when no operation of the window is both earlier than it and an insert
    or a delete.  History entries carry no [type] of their own, so against a
    window of history entries, which is what the [code-change] handler
    passes, the descriptor is never changed. *)
Theorem transformOperation_identity (op : Op) :
  (∀ otherOps,
     Forall (λ o, (op_timestamp op ≤ op_timestamp o)%Z
                  ∨ (op_type o ≠ Some "insert" ∧ op_type o ≠ Some "delete"))
       otherOps →
     transformOperation op otherOps = op)
  ∧ (∀ history : list HistoryEntry,
       transformOperation op (entryAsOp <$> history) = op
       ∧ transformOperation op (entryAsOp <$> Js.slice_from (-10) history) = op).
Proof.
  assert (Hgen : ∀ otherOps,
     Forall (λ o, (op_timestamp op ≤ op_timestamp o)%Z
                  ∨ (op_type o ≠ Some "insert" ∧ op_type o ≠ Some "delete"))
       otherOps →
     transformOperation op otherOps = op).
  { intros otherOps Hall. induction Hall as [|o otherOps Ho Hall IH]; [done|].
    unfold transformOperation in *. simpl. by rewrite transformStep_skip. }
  split; [exact Hgen|].
  assert (Hentries : ∀ h : list HistoryEntry,
            transformOperation op (entryAsOp <$> h) = op).
  { intros h. apply Hgen, Forall_fmap, Forall_forall. intros e _. by right. }
  intros history. split; apply Hentries.
Qed.

Lemma transformOperation_identity_witness :
  let incoming := {| op_type := Some "insert"; op_position := 10;
                     op_text := "x"; op_length := 0; op_timestamp := 2000 |} in
  let later := {| op_type := Some "insert"; op_position := 0;
                  op_text := "abc"; op_length := 0; op_timestamp := 2500 |} in
  let other := {| op_type := Some "update"; op_position := 0;
                  op_text := "abc"; op_length := 0; op_timestamp := 1000 |} in
  transformOperation incoming [later; other] = incoming.
Proof.
  intros incoming later other.
  apply (proj1 (transformOperation_identity incoming)).
  apply Forall_cons_2; [left; simpl; lia|].
  apply Forall_cons_2; [right; split; discriminate|].
  apply Forall_nil_2.
Defined.

Lemma adjust_mono ts p q prior :
  (p ≤ q)%Z → (adjust ts p prior ≤ adjust ts q prior)%Z.
Proof. intros Hpq. unfold adjust. repeat case_bool_decide; lia. Qed.

Lemma adjust_nonneg ts p prior :
  (0 ≤ p)%Z → (op_type prior = Some "delete" → (0 ≤ op_position prior)%Z) →
  (0 ≤ adjust ts p prior)%Z.
Proof.
  intros Hp Hd.
  destruct (decide (op_type prior = Some "delete")) as [Hdel | Hdel];
    [specialize (Hd Hdel) | clear Hd];
    unfold adjust; repeat case_bool_decide; try done; lia.
Qed.

Lemma adjust_forward ts p prior :
  op_type prior ≠ Some "delete" → (p ≤ adjust ts p prior)%Z.
Proof. intros Hd. unfold adjust. repeat case_bool_decide; try done; lia. Qed.

Lemma adjust_backward ts p prior :
  op_type prior ≠ Some "insert" → (0 ≤ op_length prior)%Z →
  (adjust ts p prior ≤ p)%Z.
Proof. intros Hi Hl. unfold adjust. repeat case_bool_decide; try done; lia. Qed.

(** X11.  Reconciliation keeps the order of positions: of two incoming
    descriptors with the same timestamp, the one with the smaller position
    still has the smaller (or an equal) position after both are reconciled
    against the same window. *)
Theorem transformOperation_monotone (a b : Op) (otherOps : list Op) :
  op_timestamp a = op_timestamp b →
  (op_position a ≤ op_position b)%Z →
  (op_position (transformOperation a otherOps)
   ≤ op_position (transformOperation b otherOps))%Z.
Proof.
  intros Hts Hpos. rewrite !transformOperation_position.
  unfold reconciledPosition. rewrite Hts.
  generalize dependent (op_position b). generalize (op_position a).
  induction otherOps as [|o otherOps IH]; intros p q Hpq; simpl; [done|].
  by apply IH, adjust_mono.
Qed.

Lemma transformOperation_monotone_witness :
  let a := {| op_type := Some "insert"; op_position := 6;
              op_text := "x"; op_length := 0; op_timestamp := 2000 |} in
  let b := {| op_type := Some "insert"; op_position := 10;
              op_text := "y"; op_length := 0; op_timestamp := 2000 |} in
  let deleted := {| op_type := Some "delete"; op_position := 4;
                    op_text := EmptyString; op_length := 5;
                    op_timestamp := 1500 |} in
  (op_position (transformOperation a [deleted])
   ≤ op_position (transformOperation b [deleted]))%Z.
Proof.
  intros a b deleted.
  apply (transformOperation_monotone a b [deleted]); [reflexivity|].
  vm_compute. discriminate.
Defined.

Lemma fold_adjust_nonneg ts otherOps : ∀ p,
  (0 ≤ p)%Z →
  Forall (λ o, op_type o = Some "delete" → (0 ≤ op_position o)%Z) otherOps →
  (0 ≤ fold_left (adjust ts) otherOps p)%Z.
Proof.
  induction otherOps as [|o otherOps IH]; intros p Hp Hall; simpl; [done|].
  apply Forall_cons in Hall as [Ho Hall]. by apply IH, Hall; apply adjust_nonneg.
Qed.

Lemma fold_adjust_forward ts otherOps : ∀ p,
  Forall (λ o, op_type o ≠ Some "delete") otherOps →
  (p ≤ fold_left (adjust ts) otherOps p)%Z.
Proof.
  induction otherOps as [|o otherOps IH]; intros p Hall; simpl; [done|].
  apply Forall_cons in Hall as [Ho Hall].
  pose proof (adjust_forward ts p o Ho).
  pose proof (IH (adjust ts p o) Hall). lia.
Qed.

Lemma fold_adjust_backward ts otherOps : ∀ p,
  Forall (λ o, op_type o ≠ Some "insert" ∧ (0 ≤ op_length o)%Z) otherOps →
  (fold_left (adjust ts) otherOps p ≤ p)%Z.
Proof.
  induction otherOps as [|o otherOps IH]; intros p Hall; simpl; [done|].
  apply Forall_cons in Hall as [[Hi Hl] Hall].
  pose proof (adjust_backward ts p o Hi Hl).
  pose proof (IH (adjust ts p o) Hall). lia.
Qed.

(** X12.  A reconciled position does not become negative when the incoming
    position and the positions of the deletes of the window are not
    negative.  Against a window without deletes the position does not
    decrease, and against a window without inserts whose deletes have
    lengths that are not negative it does not increase. *)
Theorem transformOperation_bounds (op : Op) (otherOps : list Op) :
  ((0 ≤ op_position op)%Z →
   Forall (λ o, op_type o = Some "delete" → (0 ≤ op_position o)%Z) otherOps →
   (0 ≤ op_position (transformOperation op otherOps))%Z)
  ∧ (Forall (λ o, op_type o ≠ Some "delete") otherOps →
     (op_position op ≤ op_position (transformOperation op otherOps))%Z)
  ∧ (Forall (λ o, op_type o ≠ Some "insert" ∧ (0 ≤ op_length o)%Z) otherOps →
     (op_position (transformOperation op otherOps) ≤ op_position op)%Z).
Proof.
  rewrite transformOperation_position. unfold reconciledPosition. split_and!.
  - apply fold_adjust_nonneg.
  - apply fold_adjust_forward.
  - apply fold_adjust_backward.
Qed.

Lemma transformOperation_bounds_witness :
  let incoming := {| op_type := Some "insert"; op_position := 10;
                     op_text := "x"; op_length := 0; op_timestamp := 2000 |} in
  let deleted := {| op_type := Some "delete"; op_position := 4;
                    op_text := EmptyString; op_length := 50;
                    op_timestamp := 1500 |} in
  (0 ≤ op_position (transformOperation incoming [deleted]))%Z
  ∧ (op_position (transformOperation incoming [deleted]) ≤ 10)%Z.
Proof.
  intros incoming deleted.
  destruct (transformOperation_bounds incoming [deleted]) as (Hnonneg & _ & Hback).
  split.
  - apply Hnonneg; [simpl; lia|].
    apply Forall_cons_2; [intros _; simpl; lia | apply Forall_nil_2].
  - apply Hback.
    apply Forall_cons_2; [split; [discriminate | simpl; lia] | apply Forall_nil_2].
Defined.

Lemma replayBetween_twice from to history :
  replayBetween from to (replayBetween from to history)
  = replayBetween from to history.
Proof.
  unfold replayBetween. induction history as [|e history IH]; simpl; [done|].
  destruct (bool_decide _) eqn:He; simpl; [|done]. by rewrite He, IH.
Qed.

Lemma replayBetween_narrow from from' to to' history :
  (from ≤ from')%Z → (to' ≤ to)%Z →
  sublist (replayBetween from' to' history) (replayBetween from to history).
Proof.
  intros Hf Ht. unfold replayBetween.
  induction history as [|e history IH]; simpl; [done|].
  destruct (bool_decide (from' ≤ _ ≤ to')%Z) eqn:Hin.
  - apply bool_decide_eq_true_1 in Hin.
    rewrite bool_decide_eq_true_2 by lia. by constructor.
  - destruct (bool_decide (from ≤ _ ≤ to)%Z); [by constructor | done].
Qed.

Lemma replayBetween_last from to history e :
  last history = Some e → (from ≤ h_timestamp e ≤ to)%Z →
  last (replayBetween from to history) = Some e.
Proof.
  intros Hlast Hin. apply last_Some in Hlast as [l' ->].
  unfold replayBetween. rewrite List.filter_app. simpl.
  rewrite bool_decide_eq_true_2 by done. apply last_snoc.
Qed.

(** X13.  A replay without bounds returns the whole retained history when
    its timestamps lie between 0 and the current time.  Replaying a replay
    with the same bounds changes nothing, and narrower bounds return a
    subsequence of what wider bounds return.  Right after [updateCode] has
    pushed an entry (existing active file, positive cap), a replay whose
    bounds include the time of the call ends with that entry. *)
Theorem getReplay_coverage config (history_ : list HistoryEntry) (now : Z) :
  (Forall (λ e, (0 ≤ h_timestamp e ≤ now)%Z) history_ →
   getReplay history_ None None now = history_)
  ∧ (∀ from to,
       getReplay (getReplay history_ from to now) from to now
       = getReplay history_ from to now)
  ∧ (∀ from from' to to',
       (from ≤ from')%Z → (to' ≤ to)%Z → to ≠ 0%Z → to' ≠ 0%Z →
       sublist (getReplay history_ (Some from') (Some to') now)
               (getReplay history_ (Some from) (Some to) now))
  ∧ (∀ this content operation t from to,
       (0 < roomHistoryLimit config)%Z →
       is_Some (files this !! activeFile this) →
       (from ≤ t ≤ to)%Z → to ≠ 0%Z →
       last (getReplay (history (updateCode config this content operation t))
               (Some from) (Some to) now)
       = Some (entryOf (activeFile this) (content, operation, t))).
Proof.
  split_and!.
  - intros Hall. rewrite getReplay_between. simpl. unfold replayBetween.
    induction Hall as [|e h He Hall IH]; simpl; [done|].
    rewrite bool_decide_eq_true_2 by done. by rewrite IH.
  - intros from to. rewrite !getReplay_between. apply replayBetween_twice.
  - intros from from' to to' Hf Ht Hto Hto'. rewrite !getReplay_between. simpl.
    destruct (Z.eqb_spec to 0), (Z.eqb_spec to' 0); try done.
    assert (Hlo : ∀ x, (if (x =? 0)%Z then 0%Z else x) = x)
      by (intros x; by destruct (Z.eqb_spec x 0)).
    rewrite !Hlo. by apply replayBetween_narrow.
  - intros this content operation t from to Hcap [file Hfile] Hin Hto.
    rewrite getReplay_between. simpl.
    destruct (Z.eqb_spec to 0); [done|].
    assert ((if (from =? 0)%Z then 0%Z else from) = from) as ->
      by (by destruct (Z.eqb_spec from 0)).
    apply replayBetween_last; [|done].
    rewrite (updateCode_hit _ _ _ _ _ file Hfile). simpl.
    rewrite truncate_keepLast by done. apply keepLast_snoc. lia.
Qed.

Lemma getReplay_coverage_witness :
  let cfg := loadConfig None None in
  let op := {| so_op := None; so_userId := "s1"; so_username := "Alice" |} in
  let h := [entryOf "main.js" ("a", op, 100%Z); entryOf "main.js" ("b", op, 300%Z)] in
  getReplay h None None 400 = h
  ∧ last (getReplay (history (updateCode cfg (newRoom "ABC123" 0) "c" op 500))
            (Some 450%Z) (Some 600%Z) 700)
    = Some (entryOf "main.js" ("c", op, 500%Z)).
Proof.
  intros cfg op h.
  destruct (getReplay_coverage cfg h 400) as (Hwhole & _ & _ & Hlast).
  split.
  - apply Hwhole.
    apply Forall_cons_2; [simpl; lia|].
    apply Forall_cons_2; [simpl; lia | apply Forall_nil_2].
  - apply (Hlast (newRoom "ABC123" 0) "c" op 500%Z 450%Z 600%Z);
      [reflexivity | vm_compute; eauto | lia | discriminate].
Defined.

(** * Further properties of the event handlers *)

Lemma boundRoom_unbound s socketId :
  sessions s !! socketId = None
  ∨ (∃ sess, sessions s !! socketId = Some sess
             ∧ (currentRoom sess = None ∨ currentRoom sess = Some EmptyString)) →
  boundRoom s socketId = None.
Proof.
  unfold boundRoom. intros [-> | (sess & -> & [-> | ->])]; done.
Qed.

Lemma unbound_ignored config s e socketId :
  roomEvent e = Some socketId →
  boundRoom s socketId = None →
  handle config s e = s.
Proof.
  intros He Hb.
  destruct e; simpl in He; try discriminate; injection He as ->; simpl;
    try done;
    try (unfold onCodeChange, onCursorChange, onSwitchFile, onCreateFile,
           onDeleteFile, onChatMessage; by rewrite Hb).
  unfold onDisconnect. unfold boundRoom in Hb.
  destruct (sessions s !! socketId) as [sess|]; [|done].
  destruct (currentRoom sess) as [roomId|]; [|done].
  destruct (currentUser sess); [|done].
  destruct (Js.truthy roomId); [|done].
  by destruct (rooms s !! roomId).
Qed.

(** X14.  Before a socket has joined a room, and also when the room id it
    joined with is the empty string, the handlers of [code-change],
    [cursor-change], [switch-file], [create-file], [delete-file],
    [chat-message], [disconnect] and [ping] leave the server as it is and
    [get-replay] answers nothing.  So a [join-room] with the empty room id
    registers a room with the socket as its user, and afterwards no such
    event of the socket, and no sequence of such events, changes the
    server: not even its [disconnect] takes the user out of that room.
    (Only another [join-room] of the socket changes the state again.) *)
Theorem unbound_socket_is_ignored config (s : Server) (socketId : string) :
  (sessions s !! socketId = None
   ∨ (∃ sess, sessions s !! socketId = Some sess
              ∧ (currentRoom sess = None ∨ currentRoom sess = Some EmptyString)) →
   (∀ e, roomEvent e = Some socketId → handle config s e = s)
   ∧ (∀ from to now, onGetReplay s socketId from to now = None))
  ∧ (is_Some (sessions s !! socketId) →
     ∀ username now,
       let s1 := handle config s (join_room socketId EmptyString username now) in
       (∃ room, rooms s1 !! EmptyString = Some room
                ∧ is_Some (users room !! socketId))
       ∧ (∀ e, roomEvent e = Some socketId → handle config s1 e = s1)
       ∧ (∀ events, Forall (λ e, roomEvent e = Some socketId) events →
            fold_left (handle config) events s1 = s1)).
Proof.
  assert (Hgen : ∀ s0,
    sessions s0 !! socketId = None
    ∨ (∃ sess, sessions s0 !! socketId = Some sess
               ∧ (currentRoom sess = None ∨ currentRoom sess = Some EmptyString)) →
    ∀ e, roomEvent e = Some socketId → handle config s0 e = s0).
  { intros s0 Hun e He. apply (unbound_ignored config s0 e socketId He).
    by apply boundRoom_unbound. }
  split.
  - intros Hun. split; [by apply Hgen|].
    intros from to now. unfold onGetReplay. by rewrite boundRoom_unbound.
  - intros [sess Hsess] username now s1.
    assert (Hs1 : ∀ e, roomEvent e = Some socketId → handle config s1 e = s1).
    { apply Hgen. right. subst s1. simpl. unfold onJoinRoom, getOrCreateRoom.
      rewrite Hsess.
      destruct (rooms s !! EmptyString); simpl; eexists;
        rewrite lookup_insert_eq; (split; [reflexivity|]); by right. }
    split_and!.
    + subst s1. simpl. unfold onJoinRoom, getOrCreateRoom. rewrite Hsess.
      destruct (rooms s !! EmptyString); simpl; eexists;
        rewrite lookup_insert_eq; (split; [reflexivity|]); simpl;
        rewrite lookup_insert_eq; eauto.
    + exact Hs1.
    + intros events Hall.
      induction Hall as [|e events He Hall IH]; simpl; [done|].
      by rewrite (Hs1 e He).
Qed.

Lemma unbound_socket_is_ignored_witness :
  let cfg := loadConfig None None in
  let s := run cfg [connection "s1"] in
  handle cfg s (create_file "s1" "utils.js" None) = s
  ∧ handle cfg (handle cfg s (join_room "s1" EmptyString None 1)) (disconnect "s1")
    = handle cfg s (join_room "s1" EmptyString None 1).
Proof.
  intros cfg s.
  destruct (unbound_socket_is_ignored cfg s "s1") as (Hbefore & Hempty).
  split.
  - apply Hbefore; [|reflexivity].
    right. eexists. split; [reflexivity | by left].
  - apply Hempty; [vm_compute; eauto | reflexivity].
Defined.

(** X15.  An event of a socket that is bound to a room changes no room but
    that one and changes no session.  [join-room] changes no room but the
    one it names and no session but the one of the socket.  A room id that
    is not registered gets registered only by a [join-room] that names
    it. *)
Theorem events_touch_one_room config (s : Server) (e : Event) :
  (∀ socketId sess roomId,
     roomEvent e = Some socketId →
     sessions s !! socketId = Some sess → currentRoom sess = Some roomId →
     (∀ k, k ≠ roomId → rooms (handle config s e) !! k = rooms s !! k)
     ∧ sessions (handle config s e) = sessions s)
  ∧ (∀ socketId roomId username now,
       e = join_room socketId roomId username now →
       (∀ k, k ≠ roomId → rooms (handle config s e) !! k = rooms s !! k)
       ∧ (∀ k, k ≠ socketId →
            sessions (handle config s e) !! k = sessions s !! k))
  ∧ (∀ k, rooms s !! k = None → is_Some (rooms (handle config s e) !! k) →
       ∃ socketId username now, e = join_room socketId k username now).
Proof.
  split_and!.
  - intros socketId sess roomId He Hs Hc.
    destruct (boundRoom s socketId) as [[[sess' roomId'] room]|] eqn:Hb.
    + pose proof Hb as Hb'.
      apply boundRoom_Some in Hb' as (Hs' & Hc' & _ & Hr). simplify_eq.
      destruct e; simpl in He; try discriminate; injection He as ->; simpl;
        try done;
        try (unfold onCodeChange, onCursorChange, onSwitchFile, onCreateFile,
               onDeleteFile, onChatMessage; rewrite Hb;
             repeat case_match; try done; simpl;
             (split; [|done]); intros k Hk; by rewrite lookup_insert_ne).
      unfold onDisconnect. rewrite Hs, Hc.
      repeat case_match; try done; simpl; (split; [|done]); intros k Hk.
      * by rewrite lookup_delete_ne.
      * by rewrite lookup_insert_ne.
    + by rewrite (unbound_ignored config s e socketId He Hb).
  - intros socketId roomId username now ->. simpl.
    unfold onJoinRoom, getOrCreateRoom.
    destruct (sessions s !! socketId); [|done].
    destruct (rooms s !! roomId); simpl;
      (split; intros k Hk; by rewrite !lookup_insert_ne).
  - intros k Hnone Hsome.
    destruct e; simpl in Hsome;
      try (rewrite Hnone in Hsome; by destruct Hsome);
      try (unfold onCodeChange, onCursorChange, onSwitchFile, onCreateFile,
             onDeleteFile, onChatMessage in Hsome;
           destruct (boundRoom s socketId) as [[[sess roomId] room]|] eqn:Hb;
           [apply boundRoom_Some in Hb as (_ & _ & _ & Hr)
           |rewrite Hnone in Hsome; by destruct Hsome];
           repeat case_match; simpl in Hsome;
           try (rewrite Hnone in Hsome; by destruct Hsome);
           (destruct (decide (roomId = k)) as [-> | Hne];
            [congruence
            |rewrite lookup_insert_ne in Hsome by done;
             rewrite Hnone in Hsome; by destruct Hsome])).
    + unfold onJoinRoom, getOrCreateRoom in Hsome.
      destruct (sessions s !! socketId);
        [|rewrite Hnone in Hsome; by destruct Hsome].
      destruct (decide (roomId = k)) as [-> | Hne]; [eauto|].
      destruct (rooms s !! roomId); simpl in Hsome;
        rewrite !lookup_insert_ne in Hsome by done;
        rewrite Hnone in Hsome; by destruct Hsome.
    + unfold onDisconnect in Hsome.
      repeat case_match; simpl in Hsome;
        try (rewrite Hnone in Hsome; by destruct Hsome).
      * destruct (decide (s1 = k)) as [-> | Hne];
          [by rewrite lookup_delete_eq in Hsome; destruct Hsome|].
        rewrite lookup_delete_ne in Hsome by done.
        rewrite Hnone in Hsome; by destruct Hsome.
      * destruct (decide (s1 = k)) as [-> | Hne]; [congruence|].
        rewrite lookup_insert_ne in Hsome by done.
        rewrite Hnone in Hsome; by destruct Hsome.
    + unfold onPostFile in Hsome.
      destruct (rooms s !! id) eqn:Hr;
        [|rewrite Hnone in Hsome; by destruct Hsome].
      simpl in Hsome. destruct (decide (id = k)) as [-> | Hne]; [congruence|].
      rewrite lookup_insert_ne in Hsome by done.
      rewrite Hnone in Hsome; by destruct Hsome.
    + unfold onAutoSave in Hsome.
      destruct (rooms s !! roomId) eqn:Hr;
        [|rewrite Hnone in Hsome; by destruct Hsome].
      destruct (_ && _); [|rewrite Hnone in Hsome; by destruct Hsome].
      simpl in Hsome. destruct (decide (roomId = k)) as [-> | Hne]; [congruence|].
      rewrite lookup_insert_ne in Hsome by done.
      rewrite Hnone in Hsome; by destruct Hsome.
Qed.

Lemma events_touch_one_room_witness :
  let cfg := loadConfig None None in
  let s := run cfg [connection "s1"; join_room "s1" "ABC123" (Some "Alice") 1;
                    connection "s2"; join_room "s2" "XYZ789" (Some "Bob") 2] in
  rooms (handle cfg s (delete_file "s1" "main.js")) !! "XYZ789"
  = rooms s !! "XYZ789".
Proof.
  intros cfg s.
  eapply (proj1 (proj1 (events_touch_one_room cfg s (delete_file "s1" "main.js"))
                   "s1" _ "ABC123" eq_refl _ _)).
  discriminate.
  Unshelve.
  - exact {| currentRoom := Some "ABC123";
             currentUser := Some {| user_id := "s1"; user_username := "Alice";
                                    user_color := Some "#FF6B6B";
                                    user_joinedAt := 1; user_cursor := (0%Z, 0%Z) |} |}.
  - reflexivity.
  - reflexivity.
Defined.

Lemma onJoinRoom_rooms config s socketId roomId username now :
  is_Some (sessions s !! socketId) →
  let s1 := handle config s (join_room socketId roomId username now) in
  let room := (getOrCreateRoom (rooms s) roomId now).2 in
  let joined := addUser room socketId username now in
  rooms s1 = <[roomId := joined.1]> (rooms s)
  ∧ sessions s1
    = <[socketId := {| currentRoom := Some roomId; currentUser := Some joined.2 |}]>
        (sessions s).
Proof.
  intros [sess Hsess]. simpl. unfold onJoinRoom, getOrCreateRoom. rewrite Hsess.
  destruct (rooms s !! roomId); simpl; [done|]. by rewrite insert_insert_eq.
Qed.

(** X16.  [join-room] does not take the socket out of a room it joined
    before: when a socket that is a user of one room joins another room and
    then disconnects, the first room is still registered, unchanged, with
    the socket among its users.  The second room no longer has the socket
    when its id is not the empty string; when its id is the empty string
    the [disconnect] changes nothing and the second room keeps the socket
    as well. *)
Theorem rejoin_leaves_stale_user config (s : Server) (socketId roomA roomB : string)
    (room : Room) (username : option string) (now : Z) :
  is_Some (sessions s !! socketId) → roomA ≠ roomB →
  rooms s !! roomA = Some room → is_Some (users room !! socketId) →
  let s1 := handle config s (join_room socketId roomB username now) in
  let s2 := handle config s1 (disconnect socketId) in
  rooms s1 !! roomA = Some room
  ∧ rooms s2 !! roomA = Some room
  ∧ (roomB ≠ EmptyString →
     match rooms s2 !! roomB with
     | Some room' => users room' !! socketId = None
     | None => True
     end)
  ∧ (roomB = EmptyString →
     s2 = s1
     ∧ ∃ room', rooms s2 !! roomB = Some room'
                ∧ is_Some (users room' !! socketId)).
Proof.
  intros Hsess Hne Hroom Huser s1 s2.
  destruct (onJoinRoom_rooms config s socketId roomB username now Hsess)
    as [Hrooms Hsessions].
  fold s1 in Hrooms, Hsessions.
  assert (H1 : rooms s1 !! roomA = Some room)
    by (rewrite Hrooms; by rewrite lookup_insert_ne).
  split; [done|].
  set (joined := addUser (getOrCreateRoom (rooms s) roomB now).2 socketId
                   username now) in Hrooms, Hsessions.
  assert (HB : rooms s1 !! roomB = Some joined.1)
    by (rewrite Hrooms; apply lookup_insert_eq).
  assert (Hin : is_Some (users joined.1 !! socketId))
    by (subst joined; simpl; rewrite lookup_insert_eq; eauto).
  subst s2. cbn [handle]. unfold onDisconnect.
  rewrite Hsessions, lookup_insert_eq. cbn [currentRoom currentUser]. rewrite HB.
  destruct (Js.truthy roomB) eqn:Htruthy.
  - assert (Hnonempty : roomB ≠ EmptyString) by (intros ->; discriminate Htruthy).
    case_bool_decide; cbn [rooms setRoom].
    + rewrite lookup_delete_ne by done. split_and!; try done.
      intros _. by rewrite lookup_delete_eq.
    + rewrite lookup_insert_ne by done. split_and!; try done.
      intros _. rewrite lookup_insert_eq. simpl. apply lookup_delete_eq.
  - split_and!; try done.
    + intros Hnonempty. by destruct roomB.
    + intros _. split; [done|]. rewrite HB. eauto.
Qed.

Lemma rejoin_leaves_stale_user_witness :
  let cfg := loadConfig None None in
  let s := run cfg [connection "s1"; join_room "s1" "ABC123" (Some "Alice") 1] in
  let s1 := handle cfg s (join_room "s1" "XYZ789" (Some "Alice") 2) in
  let s2 := handle cfg s1 (disconnect "s1") in
  let e1 := handle cfg s (join_room "s1" EmptyString (Some "Alice") 2) in
  let e2 := handle cfg e1 (disconnect "s1") in
  rooms s2 !! "ABC123" = rooms s !! "ABC123"
  ∧ is_Some (rooms s !! "ABC123")
  ∧ e2 = e1.
Proof.
  intros cfg s s1 s2 e1 e2.
  destruct (rooms s !! "ABC123") as [room|] eqn:Hroom; [|discriminate Hroom].
  assert (Hsess : is_Some (sessions s !! "s1")) by (vm_compute; eauto).
  assert (Huser : is_Some (users room !! "s1"))
    by (vm_compute in Hroom; injection Hroom as <-; vm_compute; eauto).
  split_and!; [|eauto|].
  - refine (proj1 (proj2 (rejoin_leaves_stale_user cfg s "s1" "ABC123" "XYZ789"
                            room (Some "Alice") 2 Hsess _ Hroom Huser))).
    discriminate.
  - refine (proj1 (proj2 (proj2 (proj2
              (rejoin_leaves_stale_user cfg s "s1" "ABC123" EmptyString
                 room (Some "Alice") 2 Hsess _ Hroom Huser))) eq_refl)).
    discriminate.
Defined.

(** X17.  A [code-change] of a socket that is bound to a room and sends a
    descriptor calls [updateCode] on that room with the content and with
    the descriptor exactly as it was sent, tagged with the socket id and the
    name of the user; no other room and no session changes.  Without a
    descriptor the edit is applied only while the history of the room is
    empty: once the history has an entry, the handler fails before it
    reaches the room and the server is left as it was. *)
Theorem code_change_effect config (s : Server) (socketId : string) (sess : Session)
    (roomId : string) (room : Room) (user : User) (content : string) (now : Z) :
  boundRoom s socketId = Some (sess, roomId, room) →
  currentUser sess = Some user →
  let stored o := {| so_op := o; so_userId := socketId;
                     so_username := user_username user |} in
  (∀ op,
     let s' := handle config s (code_change socketId content (Some op) now) in
     rooms s' = <[roomId := updateCode config room content (stored (Some op)) now]>
                  (rooms s)
     ∧ sessions s' = sessions s)
  ∧ (history room = [] →
     let s' := handle config s (code_change socketId content None now) in
     rooms s' = <[roomId := updateCode config room content (stored None) now]>
                  (rooms s)
     ∧ sessions s' = sessions s)
  ∧ (history room ≠ [] →
     handle config s (code_change socketId content None now) = s).
Proof.
  intros Hb Hu stored. split_and!.
  - intros op. simpl. unfold onCodeChange. rewrite Hb, Hu.
    assert (Hid : transformOperation op
                    (entryAsOp <$> Js.slice_from (-10) (history room)) = op).
    { generalize (Js.slice_from (-10) (history room)). intros h.
      unfold transformOperation.
      induction h as [|e h IH]; simpl; [done|].
      rewrite transformStep_skip; [done | by right]. }
    rewrite Hid. done.
  - intros Hempty. simpl. unfold onCodeChange. rewrite Hb, Hu, Hempty. done.
  - intros Hnonempty. simpl. unfold onCodeChange. rewrite Hb.
    destruct (history room) as [|e h] eqn:Hh; [done|].
    assert (Hne : Js.slice_from (-10) (e :: h) ≠ []).
    { unfold Js.slice_from. simpl length.
      intros Hnil. apply (f_equal length) in Hnil. rewrite length_drop in Hnil.
      simpl in Hnil. lia. }
    destruct (Js.slice_from (-10) (e :: h)); [done|]. simpl. done.
Qed.

Lemma code_change_effect_witness :
  let cfg := loadConfig None None in
  let s := run cfg [connection "s1"; join_room "s1" "ABC123" (Some "Alice") 1;
                    code_change "s1" "a" None 2] in
  handle cfg s (code_change "s1" "ab" None 3) = s.
Proof.
  intros cfg s.
  pose (joined := addUser (newRoom "ABC123" 1) "s1" (Some "Alice") 1).
  pose (sess := {| currentRoom := Some "ABC123"; currentUser := Some joined.2 |}).
  pose (room := updateCode cfg joined.1 "a"
                  {| so_op := None; so_userId := "s1"; so_username := "Alice" |} 2).
  apply (proj2 (proj2 (code_change_effect cfg s "s1" sess "ABC123" room joined.2
                         "ab" 3 eq_refl eq_refl))).
  vm_compute. discriminate.
Defined.

(** ** Registered rooms are well formed *)

Lemma setRoom_step config s roomId room o k room' :
  rooms s !! roomId = Some room →
  rooms (setRoom s roomId (applyOp config room o)) !! k = Some room' →
  rooms s !! k = Some room'
  ∨ (∃ room0 o0, rooms s !! k = Some room0 ∧ room' = applyOp config room0 o0).
Proof.
  intros Hr. simpl. destruct (decide (roomId = k)) as [<- | Hne].
  - rewrite lookup_insert_eq. intros [= <-]. right. eauto.
  - rewrite lookup_insert_ne by done. by left.
Qed.

Lemma handle_room_step config s e k room' :
  rooms (handle config s e) !! k = Some room' →
  rooms s !! k = Some room'
  ∨ (∃ room o, rooms s !! k = Some room ∧ room' = applyOp config room o)
  ∨ (∃ now o, rooms s !! k = None ∧ room' = applyOp config (newRoom k now) o)
  ∨ (∃ room t, rooms s !! k = Some room ∧ room' = with_lastSaved t room).
Proof.
  assert (Hset : ∀ roomId room o,
    rooms s !! roomId = Some room →
    rooms (setRoom s roomId (applyOp config room o)) !! k = Some room' →
    rooms s !! k = Some room'
    ∨ (∃ room o, rooms s !! k = Some room ∧ room' = applyOp config room o)
    ∨ (∃ now o, rooms s !! k = None ∧ room' = applyOp config (newRoom k now) o)
    ∨ (∃ room t, rooms s !! k = Some room ∧ room' = with_lastSaved t room)).
  { intros roomId room o Hr Hk.
    destruct (setRoom_step config s roomId room o k room' Hr Hk); auto. }
  destruct e; simpl; auto.
  - unfold onJoinRoom, getOrCreateRoom.
    destruct (sessions s !! socketId); [|auto].
    destruct (rooms s !! roomId) as [room|] eqn:Hr; simpl;
      (destruct (decide (roomId = k)) as [<- | Hne];
       [rewrite lookup_insert_eq; intros [= <-]
       |rewrite !lookup_insert_ne by done; auto]).
    + right. left. exists room, (OpAddUser socketId username now). done.
    + right. right. left. exists now, (OpAddUser socketId username now). done.
  - unfold onCodeChange.
    destruct (boundRoom s socketId) as [[[sess roomId] room]|] eqn:Hb; [|auto].
    apply boundRoom_Some in Hb as (_ & _ & _ & Hr).
    repeat case_match; auto;
      apply (Hset roomId room (OpUpdateCode content _ now) Hr).
  - unfold onCursorChange.
    destruct (boundRoom s socketId) as [[[sess roomId] room]|] eqn:Hb; [|auto].
    apply boundRoom_Some in Hb as (_ & _ & _ & Hr).
    apply (Hset roomId room (OpUpdateCursor socketId cursor now) Hr).
  - unfold onSwitchFile.
    destruct (boundRoom s socketId) as [[[sess roomId] room]|] eqn:Hb; [|auto].
    apply boundRoom_Some in Hb as (_ & _ & _ & Hr).
    apply (Hset roomId room (OpSwitchFile fileName) Hr).
  - unfold onCreateFile.
    destruct (boundRoom s socketId) as [[[sess roomId] room]|] eqn:Hb; [|auto].
    apply boundRoom_Some in Hb as (_ & _ & _ & Hr).
    apply (Hset roomId room (OpCreateFile fileName (Some EmptyString) language) Hr).
  - unfold onDeleteFile.
    destruct (boundRoom s socketId) as [[[sess roomId] room]|] eqn:Hb; [|auto].
    apply boundRoom_Some in Hb as (_ & _ & _ & Hr).
    apply (Hset roomId room (OpDeleteFile fileName) Hr).
  - unfold onChatMessage.
    destruct (boundRoom s socketId) as [[[sess roomId] room]|] eqn:Hb; [|auto].
    apply boundRoom_Some in Hb as (_ & _ & _ & Hr).
    destruct (currentUser sess); [|auto].
    apply (Hset roomId room (OpAddChatMessage _ now) Hr).
  - unfold onDisconnect.
    destruct (sessions s !! socketId) as [sess|]; [|auto].
    destruct (currentRoom sess) as [roomId|]; [|auto].
    destruct (currentUser sess); [|auto].
    destruct (Js.truthy roomId); [|auto].
    destruct (rooms s !! roomId) as [room|] eqn:Hr; [|auto].
    case_bool_decide.
    + simpl. intros [_ Hk]%lookup_delete_Some. auto.
    + apply (Hset roomId room (OpRemoveUser socketId) Hr).
  - unfold onPostFile.
    destruct (rooms s !! id) as [room|] eqn:Hr; [|auto].
    apply (Hset id room (OpCreateFile fileName content language) Hr).
  - unfold onAutoSave.
    destruct (rooms s !! roomId) as [room|] eqn:Hr; [|auto].
    destruct (_ && _); [|auto]. simpl.
    destruct (decide (roomId = k)) as [<- | Hne].
    + rewrite lookup_insert_eq. intros [= <-]. do 3 right. eauto.
    + rewrite lookup_insert_ne by done. auto.
Qed.

Lemma applyOp_wellFormed config key room o :
  (0 < roomHistoryLimit config)%Z → (0 < chatMessageLimit config)%Z →
  wellFormed config key room → wellFormed config key (applyOp config room o).
Proof.
  intros Hh Hc (Hid & Hactive & Hkeys & Hcursors & Hhist & Hchat).
  split_and!.
  - by rewrite applyOp_room_id.
  - by apply applyOp_activeResolves.
  - by apply applyOp_keyedByName.
  - by apply applyOp_cursorsStamped.
  - by apply applyOp_history_bound.
  - rewrite applyOp_chat. destruct o; try done. by apply truncate_length.
Qed.

Lemma newRoom_wellFormed config key now :
  (0 < roomHistoryLimit config)%Z → (0 < chatMessageLimit config)%Z →
  wellFormed config key (newRoom key now).
Proof.
  intros Hh Hc.
  split_and!;
    [done | apply newRoom_activeResolves | apply newRoom_keyedByName
    | | simpl; lia | simpl; lia].
  intros k entry Hk. simpl in Hk. by rewrite lookup_empty in Hk.
Qed.

(** X18.  With positive caps, every room that the registry holds after the
    server has handled any sequence of events is well formed: its id is the
    key it is registered under, [main.js] and the active file are keys of
    its file map, files are stored under their name and users under their
    id, every cursor entry names its key and is stamped, and the history and
    the chat log are within their caps. *)
Theorem registered_rooms_well_formed config
    (Hh : (0 < roomHistoryLimit config)%Z) (Hc : (0 < chatMessageLimit config)%Z) :
  ∀ events key room,
    rooms (run config events) !! key = Some room →
    room_id room = key
    ∧ is_Some (files room !! "main.js")
    ∧ is_Some (files room !! activeFile room)
    ∧ (∀ k f, files room !! k = Some f → file_name f = k)
    ∧ (∀ k u, users room !! k = Some u → user_id u = k)
    ∧ cursorsStamped room
    ∧ (Z.of_nat (length (history room)) ≤ roomHistoryLimit config)%Z
    ∧ (Z.of_nat (length (chat room)) ≤ chatMessageLimit config)%Z.
Proof.
  assert (Hwf : ∀ events key room,
            rooms (run config events) !! key = Some room →
            wellFormed config key room).
  { induction events as [|e events IH] using rev_ind; intros key room Hroom.
    - simpl in Hroom. by rewrite lookup_empty in Hroom.
    - unfold run in Hroom. rewrite fold_left_app in Hroom. simpl in Hroom.
      fold (run config events) in Hroom.
      apply handle_room_step in Hroom
        as [Hsame | [(room0 & o & Hr & ->) | [(now & o & _ & ->) | (room0 & t & Hr & ->)]]].
      + by apply IH.
      + apply applyOp_wellFormed; try done. by apply IH.
      + apply applyOp_wellFormed; try done. by apply newRoom_wellFormed.
      + apply IH in Hr. destruct Hr as (? & ? & ? & ? & ? & ?). by split_and!. }
  intros events key room Hroom.
  destruct (Hwf events key room Hroom)
    as (Hid & [Hmain Hact] & [Hf Hu] & Hcur & Hhist & Hchat).
  by split_and!.
Qed.

Lemma registered_rooms_well_formed_witness :
  let cfg := loadConfig None None in
  let events := [connection "s1"; join_room "s1" "ABC123" (Some "Alice") 1;
                 create_file "s1" "utils.js" None; switch_file "s1" "utils.js";
                 delete_file "s1" "utils.js"] in
  ∃ room, rooms (run cfg events) !! "ABC123" = Some room
          ∧ is_Some (files room !! activeFile room).
Proof.
  intros cfg events.
  destruct (rooms (run cfg events) !! "ABC123") as [room|] eqn:Hroom;
    [|vm_compute in Hroom; discriminate Hroom].
  exists room. split; [done|].
  exact (proj1 (proj2 (proj2
           (registered_rooms_well_formed cfg eq_refl eq_refl events "ABC123" room
              Hroom)))).
Defined.

(** ** The REST surface *)

Lemma maxTs_nonneg (l : list Z) : (0 ≤ foldr Z.max 0 l)%Z.
Proof. induction l as [|x l IH]; simpl; lia. Qed.

Lemma maxTs_app (l1 l2 : list Z) :
  foldr Z.max 0%Z (l1 ++ l2) = Z.max (foldr Z.max 0%Z l1) (foldr Z.max 0%Z l2).
Proof.
  induction l1 as [|x l1 IH]; simpl.
  - pose proof (maxTs_nonneg l2). lia.
  - rewrite IH. lia.
Qed.

Lemma maxTs_In (l : list Z) x : x ∈ l → (x ≤ foldr Z.max 0 l)%Z.
Proof.
  induction l as [|y l IH]; intros Hin.
  - by apply elem_of_nil in Hin.
  - apply elem_of_cons in Hin as [-> | Hin]; simpl; [lia|].
    specialize (IH Hin). lia.
Qed.

Lemma maxTs_attained (l : list Z) :
  foldr Z.max 0%Z l = 0%Z ∨ foldr Z.max 0%Z l ∈ l.
Proof.
  induction l as [|y l IH]; simpl; [by left|].
  destruct (Z.max_spec y (foldr Z.max 0%Z l)) as [[_ ->] | [_ ->]].
  - destruct IH as [IH | IH]; [by left | right; by apply list_elem_of_further].
  - right. apply list_elem_of_here.
Qed.

(** X19.  The last activity that [GET /api/rooms] reports for a room is 0
    for an empty history, is never negative, is at least every timestamp of
    the history, and is 0 or the timestamp of one of its entries.  After an
    [updateCode] at a time that is neither negative nor earlier than the
    reported activity (existing active file, positive cap), the reported
    activity is the time of that call.  The summary carries the id and the
    numbers of users and files of the room. *)
Theorem lastActivity_spec config (room : Room) :
  (history room = [] → lastActivity room = 0%Z)
  ∧ (0 ≤ lastActivity room)%Z
  ∧ (∀ e, e ∈ history room → (h_timestamp e ≤ lastActivity room)%Z)
  ∧ (lastActivity room = 0%Z
     ∨ ∃ e, e ∈ history room ∧ h_timestamp e = lastActivity room)
  ∧ (∀ content operation now,
       (0 < roomHistoryLimit config)%Z →
       is_Some (files room !! activeFile room) →
       (0 ≤ now)%Z → (lastActivity room ≤ now)%Z →
       lastActivity (updateCode config room content operation now) = now)
  ∧ roomSummary room
    = {| sum_id := room_id room; sum_userCount := size (users room);
         sum_fileCount := size (files room);
         sum_lastActivity := lastActivity room |}.
Proof.
  unfold lastActivity. split_and!; try done.
  - by intros ->.
  - apply maxTs_nonneg.
  - intros e He. apply maxTs_In. apply list_elem_of_fmap. eauto.
  - destruct (maxTs_attained (h_timestamp <$> history room)) as [H0 | Hin];
      [by left|].
    right. apply list_elem_of_fmap in Hin as (e & He & Hin). eauto.
  - intros content operation now Hcap [file Hfile] Hnow Hlast.
    rewrite (updateCode_hit _ _ _ _ _ file Hfile). simpl.
    rewrite truncate_keepLast by done.
    set (e := entryOf (activeFile room) (content, operation, now)).
    set (n := Z.to_nat (roomHistoryLimit config)).
    assert (Hn : 0 < n) by (subst n; lia).
    pose proof (keepLast_snoc n (history room) e Hn) as Hend.
    apply last_Some in Hend as [kept Hkept].
    assert (Hwhole : history room ++ [e]
                     = take (length (history room ++ [e]) - n) (history room ++ [e])
                       ++ keepLast n (history room ++ [e]))
      by (unfold keepLast; by rewrite take_drop).
    apply (f_equal (λ l, foldr Z.max 0%Z (h_timestamp <$> l))) in Hwhole.
    rewrite !fmap_app, !maxTs_app in Hwhole. simpl in Hwhole.
    rewrite Hkept in Hwhole |- *. rewrite fmap_app, maxTs_app in Hwhole |- *.
    simpl in Hwhole |- *.
    pose proof (maxTs_nonneg (h_timestamp <$> kept)).
    pose proof (maxTs_nonneg
      (h_timestamp <$> take (length (history room ++ [e]) - n) (history room ++ [e]))).
    lia.
Qed.

Lemma lastActivity_spec_witness :
  let cfg := loadConfig None None in
  let op := {| so_op := None; so_userId := "s1"; so_username := "Alice" |} in
  lastActivity (updateCode cfg (newRoom "ABC123" 0) "a" op 500) = 500%Z.
Proof.
  intros cfg op.
  apply (proj1 (proj2 (proj2 (proj2 (proj2
           (lastActivity_spec cfg (newRoom "ABC123" 0))))))).
  - reflexivity.
  - vm_compute. eauto.
  - lia.
  - vm_compute. discriminate.
Defined.

(** X20.  [POST /api/rooms/:id/files] answers 404 for a room id that is not
    registered and 400 for a file name that the room already has, and in
    both cases leaves the server as it is; otherwise it answers 200 with
    the new file and the room holds that file afterwards.  It never
    registers a room and never changes a session. *)
Theorem post_file_spec (s : Server) (id fileName : string)
    (content language : option string) :
  let response := postFileResponse s id fileName content language in
  let s' := onPostFile s id fileName content language in
  (rooms s !! id = None → response = (404, None) ∧ s' = s)
  ∧ (∀ room, rooms s !! id = Some room → is_Some (files room !! fileName) →
       response = (400, None) ∧ s' = s)
  ∧ (∀ room, rooms s !! id = Some room → files room !! fileName = None →
       let file := {| file_name := fileName;
                      file_content := default EmptyString content;
                      file_language := default "javascript" language |} in
       response = (200, Some file)
       ∧ ∃ room', rooms s' !! id = Some room'
                  ∧ files room' !! fileName = Some file
                  ∧ sameButFiles room room')
  ∧ dom (rooms s') = dom (rooms s)
  ∧ sessions s' = sessions s.
Proof.
  unfold postFileResponse, onPostFile. simpl. split_and!.
  - by intros ->.
  - intros room Hr [f Hf]. rewrite Hr. unfold createFile. rewrite Hf. simpl.
    split; [done|]. unfold setRoom. rewrite insert_id by done. by destruct s.
  - intros room Hr Hnone. rewrite Hr. unfold createFile. rewrite Hnone. simpl.
    split; [done|]. eexists. rewrite lookup_insert_eq. split; [reflexivity|].
    simpl. rewrite lookup_insert_eq. done.
  - destruct (rooms s !! id) eqn:Hr; [|done]. simpl.
    apply dom_insert_lookup_L. eauto.
  - by destruct (rooms s !! id).
Qed.

Lemma post_file_spec_witness :
  let cfg := loadConfig None None in
  let s := run cfg [connection "s1"; join_room "s1" "ABC123" (Some "Alice") 1] in
  postFileResponse s "XYZ789" "utils.js" None None = (404, None)
  ∧ postFileResponse s "ABC123" "main.js" None None = (400, None).
Proof.
  intros cfg s.
  destruct (post_file_spec s "XYZ789" "utils.js" None None) as (Hmissing & _).
  destruct (post_file_spec s "ABC123" "main.js" None None) as (_ & Htaken & _).
  split.
  - apply Hmissing. reflexivity.
  - destruct (rooms s !! "ABC123") as [room|] eqn:Hroom;
      [|vm_compute in Hroom; discriminate Hroom].
    apply (Htaken room eq_refl).
    vm_compute in Hroom. injection Hroom as <-. vm_compute. eauto.
Defined.

(** ** The draft *)

Lemma draftUpdateCodes_snoc this calls c :
  draftUpdateCodes this (calls ++ [c])
  = Draft.updateCode (draftUpdateCodes this calls) c.1.1 c.1.2 c.2.
Proof. unfold draftUpdateCodes. by rewrite fold_left_app. Qed.

Lemma lastWrite_snoc key calls (c : DraftCall) :
  lastWrite key (calls ++ [c])
  = if bool_decide (c.1.1 = key) then Some c.1.2 else lastWrite key calls.
Proof.
  unfold lastWrite. rewrite List.filter_app. simpl.
  case_bool_decide; [|by rewrite app_nil_r].
  by rewrite last_snoc.
Qed.

(** X21.  In the draft, after any sequence of [updateCode(fileName, content)]
    calls, every file of the room has the content of the last call that
    named it, or its old content when no call named it; names and languages
    are unchanged, and calls that name a file that does not exist neither
    create it nor change any other file. *)
Theorem draft_last_write_wins (this : Draft.Room) (calls : list DraftCall)
    (key : string) :
  Draft.files (draftUpdateCodes this calls) !! key
  = (λ f, match lastWrite key calls with
          | Some c => with_content c f
          | None => f
          end) <$> Draft.files this !! key.
Proof.
  induction calls as [|[[fileName content] now] calls IH] using rev_ind.
  - simpl. by destruct (Draft.files this !! key).
  - rewrite draftUpdateCodes_snoc, lastWrite_snoc. simpl.
    unfold Draft.updateCode.
    destruct (Draft.files (draftUpdateCodes this calls) !! fileName)
      as [file|] eqn:Hfile; simpl.
    + destruct (decide (fileName = key)) as [-> | Hne].
      * rewrite bool_decide_eq_true_2 by done. rewrite lookup_insert_eq.
        rewrite IH in Hfile.
        destruct (Draft.files this !! key) as [f0|]; [|done].
        simpl in *. injection Hfile as <-.
        by destruct (lastWrite key calls), f0.
      * rewrite bool_decide_eq_false_2 by done.
        by rewrite lookup_insert_ne.
    + case_bool_decide as Hk; [|done]. subst fileName.
      rewrite Hfile. rewrite IH in Hfile.
      by destruct (Draft.files this !! key).
Qed.
